(** * Marker quality heuristic of the upload form

    A shallow embedding of [validateMarkerImage]
    (src/components/UploadInterface.tsx) and the properties of its result.

    Numbers of the host language are IEEE 754 binary64 values; they are
    modelled by the primitive type [float], whose operations are specified
    against [SpecFloat] by the standard library.  Variables that only ever
    hold integers below 2^53 (array indices, the image dimensions, the array
    length, the edge counter, the bytes of the pixel array) are modelled by
    [Z] and converted where the source divides them. *)

From Stdlib Require Import ZArith Bool String List Lia.
From Stdlib Require Import Uint63 Floats.
Import ListNotations.

Local Open Scope Z_scope.

(** ** Numbers *)

Module Js.

(** An integer-valued number, as a binary64 value; meant for the integers
    from 0 up to 2^63, which covers every integer the handler holds. *)
Definition of_int (z : Z) : float := PrimFloat.of_uint63 (Uint63.of_Z z).

(** [Math.max(a, b)]: NaN if either argument is NaN; [+0] is larger than
    [-0]. *)
Definition math_max (a b : float) : float :=
  if PrimFloat.is_nan a || PrimFloat.is_nan b then nan
  else if (a <? b)%float then b
  else if (b <? a)%float then a
  else if PrimFloat.is_zero a then
    (if get_sign a && get_sign b then neg_zero else zero)
  else a.

(** [Math.min(a, b)]: NaN if either argument is NaN; [-0] is smaller than
    [+0]. *)
Definition math_min (a b : float) : float :=
  if PrimFloat.is_nan a || PrimFloat.is_nan b then nan
  else if (a <? b)%float then a
  else if (b <? a)%float then b
  else if PrimFloat.is_zero a then
    (if get_sign a || get_sign b then neg_zero else zero)
  else a.

(** The binary64 value written [0.1] in the source. *)
Definition tenth : float := 0x1.999999999999ap-4%float.

End Js.

(** ** Data model *)

(** What the [load] event hands to the handler: [img.width], [img.height]
    and the RGBA bytes [imageData.data] in row-major order. *)
Record ImageData : Type := mkImageData {
  width  : Z;
  height : Z;
  data   : list Z
}.

Record ValidationResult : Type := mkValidationResult {
  quality         : float;
  issues          : list string;
  recommendations : list string
}.

(** A pixel grid as the canvas delivers it: at least one pixel, four bytes
    per pixel, every byte in [0, 255] and a length that is a safe integer. *)
Definition valid_image (img : ImageData) : Prop :=
  0 < width img /\ 0 < height img /\
  Z.of_nat (length (data img)) = 4 * width img * height img /\
  Z.of_nat (length (data img)) < 2 ^ 53 /\
  Forall (fun v => 0 <= v <= 255) (data img).

(** ** The edge pass *)

(** [data[i]]: a read outside the array yields [undefined], which is NaN in
    arithmetic. *)
Definition data_get (d : list Z) (i : Z) : float :=
  if i <? 0 then nan
  else match nth_error d (Z.to_nat i) with
       | Some v => Js.of_int v
       | None => nan
       end.

(** [(data[i] + data[i + 1] + data[i + 2]) / 3] *)
Definition brightnessAt (d : list Z) (i : Z) : float :=
  ((data_get d i + data_get d (i + 1) + data_get d (i + 2)) / 3)%float.

(** The two accumulators of the loop. *)
Record EdgeAcc : Type := mkEdgeAcc {
  totalContrast : float;
  edgeCount     : Z
}.

(** One iteration of the [for] loop, at byte offset [i]. *)
Definition loop_body (img : ImageData) (st : EdgeAcc) (i : Z) : EdgeAcc :=
  let brightness := brightnessAt (data img) i in
  if i >? width img * 4 then
    let prevBrightness := brightnessAt (data img) (i - width img * 4) in
    let contrast := abs (brightness - prevBrightness)%float in
    {| totalContrast := (totalContrast st + contrast)%float;
       edgeCount := if (30 <? contrast)%float then edgeCount st + 1
                    else edgeCount st |}
  else st.

(** The values taken by [i]: [0, 4, 8, ...] while [i < data.length]. *)
Definition loop_indices (len : nat) : list Z :=
  map (fun k => 4 * Z.of_nat k) (seq 0 ((len + 3) / 4)).

Definition edge_pass (img : ImageData) : EdgeAcc :=
  fold_left (loop_body img) (loop_indices (length (data img)))
            {| totalContrast := 0%float; edgeCount := 0 |}.

(** [data.length / 4] *)
Definition pixelCount (img : ImageData) : float :=
  (Js.of_int (Z.of_nat (length (data img))) / 4)%float.

Definition avgContrast (img : ImageData) : float :=
  (totalContrast (edge_pass img) / pixelCount img)%float.

Definition edgeDensity (img : ImageData) : float :=
  (Js.of_int (edgeCount (edge_pass img)) / pixelCount img)%float.

(** ** The score, the issues and the recommendations *)

Definition quality_of (avg dens : float) : float :=
  Js.math_min 100 (Js.math_max 60 ((avg / 30) * 100 + dens * 1000)%float).

Definition aspectRatio (img : ImageData) : float :=
  (Js.of_int (width img) / Js.of_int (height img))%float.

Definition issue_resolution : string := "Image resolution is too low".
Definition issue_aspect     : string := "Unusual aspect ratio detected".
Definition issue_contrast   : string := "Low contrast detected".

Definition rec_resolution : string :=
  "Use images with at least 256x256 resolution".
Definition rec_aspect : string :=
  "Use images with aspect ratios between 1:2 and 2:1".
Definition rec_contrast : string :=
  "Use images with clear, high-contrast features".
Definition rec_features : string :=
  "Add more distinct features or patterns for better tracking".

(** The four conditions tested after the loop. *)
Definition low_resolution (img : ImageData) : bool :=
  (width img <? 256) || (height img <? 256).

Definition odd_aspect (img : ImageData) : bool :=
  (aspectRatio img <? 0.5)%float || (2 <? aspectRatio img)%float.

Definition low_contrast (img : ImageData) : bool :=
  (avgContrast img <? 15)%float.

Definition few_edges (img : ImageData) : bool :=
  (edgeDensity img <? Js.tenth)%float.

(** [xs.push(x)] *)
Definition push {A : Type} (xs : list A) (x : A) : list A := xs ++ [x].

(** The two arrays the handler fills, threaded through the four tests. *)
Definition check (c : bool) (issue : option string) (recommendation : string)
    (st : list string * list string) : list string * list string :=
  if c then
    (match issue with Some s => push (fst st) s | None => fst st end,
     push (snd st) recommendation)
  else st.

Definition run_checks (img : ImageData) : list string * list string :=
  let st := ([], []) in
  let st := check (low_resolution img) (Some issue_resolution) rec_resolution st in
  let st := check (odd_aspect img) (Some issue_aspect) rec_aspect st in
  let st := check (low_contrast img) (Some issue_contrast) rec_contrast st in
  check (few_edges img) None rec_features st.

(** The body of the [load] handler, up to the call of [resolve]. *)
Definition validate (img : ImageData) : ValidationResult :=
  let st := run_checks img in
  {| quality := quality_of (avgContrast img) (edgeDensity img);
     issues := fst st;
     recommendations := snd st |}.

(** ** The promise around the handler *)

Inductive promise (A : Type) : Type :=
| Pending
| Fulfilled (v : A)
| Rejected (reason : string).
Arguments Pending {A}.
Arguments Fulfilled {A} v.
Arguments Rejected {A} reason.

(** [resolve(v)] settles a pending promise and is ignored afterwards. *)
Definition resolve {A : Type} (v : A) (p : promise A) : promise A :=
  match p with
  | Pending => Fulfilled v
  | _ => p
  end.

(** Setting [img.src] ends in one of the two events of an image element. *)
Inductive image_event : Type :=
| EvLoad (img : ImageData)
| EvError.

Record image_handlers : Type := mkHandlers {
  onload  : option (ImageData -> promise ValidationResult -> promise ValidationResult);
  onerror : option (promise ValidationResult -> promise ValidationResult)
}.

(** An event runs the handler registered for it, if there is one. *)
Definition fire (h : image_handlers) (ev : image_event)
    (p : promise ValidationResult) : promise ValidationResult :=
  match ev with
  | EvLoad img => match onload h with Some f => f img p | None => p end
  | EvError => match onerror h with Some f => f p | None => p end
  end.

(** The executor passed to [new Promise] registers [img.onload] only. *)
Definition handlers : image_handlers :=
  {| onload := Some (fun img => resolve (validate img));
     onerror := None |}.

(** The promise returned for a file, once the image element has fired. *)
Definition validateMarkerImage (ev : image_event) : promise ValidationResult :=
  fire handlers ev Pending.
(** ** Auxiliary notions used by the statements *)

(** [subseq xs ys]: [xs] is [ys] with some elements left out, order kept. *)
Inductive subseq {A : Type} : list A -> list A -> Prop :=
| subseq_nil : subseq [] []
| subseq_skip (y : A) (xs ys : list A) : subseq xs ys -> subseq xs (y :: ys)
| subseq_keep (y : A) (xs ys : list A) : subseq xs ys -> subseq (y :: xs) (y :: ys).

Definition all_issues : list string :=
  [issue_resolution; issue_aspect; issue_contrast].

Definition all_recommendations : list string :=
  [rec_resolution; rec_aspect; rec_contrast; rec_features].

(** The element guarded by a condition, as a list of length at most one. *)
Definition when {A : Type} (c : bool) (x : A) : list A :=
  if c then [x] else [].

(** Membership in a concatenation of guarded elements, decided by cases on
    the guards. *)
Ltac decide_in :=
  unfold when, issue_resolution, issue_aspect, issue_contrast,
    rec_resolution, rec_aspect, rec_contrast, rec_features;
  repeat match goal with
         | |- context [if ?c then _ else _] => destruct c
         end;
  simpl; intuition (try discriminate; try congruence).

(** The edge pass as the specification words it: the comparison with the
    pixel one row above is made for every pixel whose index is at least one
    full row from the start, the first pixel of the second row included. *)
Definition spec_loop_body (img : ImageData) (st : EdgeAcc) (i : Z) : EdgeAcc :=
  let brightness := brightnessAt (data img) i in
  if i >=? width img * 4 then
    let prevBrightness := brightnessAt (data img) (i - width img * 4) in
    let contrast := abs (brightness - prevBrightness)%float in
    {| totalContrast := (totalContrast st + contrast)%float;
       edgeCount := if (30 <? contrast)%float then edgeCount st + 1
                    else edgeCount st |}
  else st.

Definition spec_edge_pass (img : ImageData) : EdgeAcc :=
  fold_left (spec_loop_body img) (loop_indices (length (data img)))
            {| totalContrast := 0%float; edgeCount := 0 |}.

(** A 2x2 image: a black row above a white row. *)
Definition black_over_white : ImageData :=
  {| width := 2; height := 2;
     data := [0; 0; 0; 255;        0; 0; 0; 255;
              255; 255; 255; 255;  255; 255; 255; 255] |}.

(** ** Binary64 values by kind

    The statements below speak of the [spec_float] image of a number:
    [Prim2SF x] is zero, infinite, NaN, or [(-1)^s * m * 2^e]. *)

(** Not NaN, with sign bit [s]. *)
Definition sf_signed (s : bool) (x : spec_float) : bool :=
  match x with
  | S754_zero s' | S754_infinity s' | S754_finite s' _ _ => Bool.eqb s s'
  | S754_nan => false
  end.

(** [+0], a positive finite value or [+infinity]. *)
Definition sf_nonneg (x : spec_float) : bool := sf_signed false x.

(** A positive finite value. *)
Definition sf_posfin (x : spec_float) : bool :=
  match x with S754_finite false _ _ => true | _ => false end.

(** Zero or finite, of either sign. *)
Definition sf_finite (x : spec_float) : bool :=
  match x with S754_zero _ | S754_finite _ _ _ => true | _ => false end.

Definition nonneg (x : float) : Prop := sf_nonneg (Prim2SF x) = true.
Definition posfin (x : float) : Prop := sf_posfin (Prim2SF x) = true.
Definition finite (x : float) : Prop := sf_finite (Prim2SF x) = true.

(** The constants of the score, as [spec_float] values. *)
Definition c60 : spec_float := Eval vm_compute in Prim2SF 60.
Definition c100 : spec_float := Eval vm_compute in Prim2SF 100.
Definition c1000 : spec_float := Eval vm_compute in Prim2SF 1000.
Definition ctenth : spec_float := Eval vm_compute in Prim2SF Js.tenth.

(** ** The edge pass as one scan over the brightness values *)

(** The brightness of a pixel with colour bytes [r], [g], [b]. *)
Definition brightness_of (r g b : Z) : float :=
  ((Js.of_int r + Js.of_int g + Js.of_int b) / 3)%float.

(** The brightness of every pixel, in row-major order. *)
Fixpoint brights (d : list Z) : list float :=
  match d with
  | r :: g :: b :: _ :: rest => brightness_of r g b :: brights rest
  | _ => []
  end.

(** The guarded part of the loop body, on two brightness values. *)
Definition step (st : EdgeAcc) (brightness prevBrightness : float) : EdgeAcc :=
  let contrast := abs (brightness - prevBrightness)%float in
  {| totalContrast := (totalContrast st + contrast)%float;
     edgeCount := if (30 <? contrast)%float then edgeCount st + 1
                  else edgeCount st |}.

(** [step] along two lists in lockstep, until either ends. *)
Fixpoint scan (cur prev : list float) (st : EdgeAcc) : EdgeAcc :=
  match cur, prev with
  | c :: cur', p :: prev' => scan cur' prev' (step st c p)
  | _, _ => st
  end.

Definition acc0 : EdgeAcc := {| totalContrast := 0%float; edgeCount := 0 |}.

(** The same scan on the bytes themselves, four at a time. *)
Fixpoint scan_bytes (cur prev : list Z) (st : EdgeAcc) : EdgeAcc :=
  match cur, prev with
  | r :: g :: b :: _ :: cur', r' :: g' :: b' :: _ :: prev' =>
      scan_bytes cur' prev'
        (step st (brightness_of r g b) (brightness_of r' g' b'))
  | _, _ => st
  end.

(** [data[k]] for a natural index. *)
Definition byte_at (d : list Z) (k : nat) : float :=
  match nth_error d k with
  | Some v => Js.of_int v
  | None => nan
  end.

(** ** Families of images *)

(** The colour bytes of every pixel; the alpha byte is not read by the
    heuristic. *)
Fixpoint colours (d : list Z) : list (Z * Z * Z) :=
  match d with
  | r :: g :: b :: _ :: rest => (r, g, b) :: colours rest
  | _ => []
  end.

Definition colour_brightness (c : Z * Z * Z) : float :=
  let '(r, g, b) := c in brightness_of r g b.

(** A solid-colour image: any two pixels have the same colour. *)
Definition uniform (img : ImageData) : Prop :=
  forall p q, In p (colours (data img)) -> In q (colours (data img)) -> p = q.

(** The [w] x [h] image whose pixels all have the opaque grey level [v]. *)
Definition solid (w h : nat) (v : Z) : ImageData :=
  {| width := Z.of_nat w; height := Z.of_nat h;
     data := concat (repeat [v; v; v; 255] (w * h)) |}.

(** A 1x2 image: a black pixel above a white pixel. *)
Definition black_above_white_pixel : ImageData :=
  {| width := 1; height := 2; data := [0; 0; 0; 255; 255; 255; 255; 255] |}.

(** A row of [w] opaque grey pixels of level [v]. *)
Definition pixel_row (w : nat) (v : Z) : list Z :=
  concat (repeat [v; v; v; 255] w).

(** [h] rows of [w] pixels whose level alternates between [v] and
    [255 - v], starting with [v]. *)
Fixpoint striped_rows (w h : nat) (v : Z) : list Z :=
  match h with
  | O => []
  | S h' => pixel_row w v ++ striped_rows w h' (255 - v)
  end.

(** The 256x256 image whose rows alternate between black and white; the top
    row is black when [top_white] is [false]. *)
Definition striped (top_white : bool) : ImageData :=
  {| width := 256; height := 256;
     data := striped_rows 256 256 (if top_white then 255 else 0) |}.

(** ** Exhaustive checks over the byte range *)

Definition zrange (n : nat) : list Z := map Z.of_nat (seq 0 n).

(** The sum of two small integers is computed exactly. *)
Definition sum_exact (r g : Z) : bool :=
  PrimFloat.Leibniz.eqb (Js.of_int r + Js.of_int g)%float (Js.of_int (r + g)).

Definition sum_exact_row (r : Z) : bool := forallb (sum_exact r) (zrange 256).

(** A third of the sum of [s] and [b] is finite. *)
Definition third_finite (s b : Z) : bool :=
  sf_finite (Prim2SF ((Js.of_int s + Js.of_int b) / 3)%float).

Definition third_finite_row (s : Z) : bool :=
  forallb (third_finite s) (zrange 256).

(** ** The quality badge of the form

    The form shows the quality in green from 80, in yellow from 60 and in
    red below, once for the text and once for the bar. *)

Definition qualityTextClass (q : float) : string :=
  if (80 <=? q)%float then "text-green-600"
  else if (60 <=? q)%float then "text-yellow-600"
  else "text-red-600".

Definition qualityBarClass (q : float) : string :=
  if (80 <=? q)%float then "bg-green-500"
  else if (60 <=? q)%float then "bg-yellow-500"
  else "bg-red-500".

(** The sum of the three colour bytes of a pixel. *)
Definition colour_sum (c : Z * Z * Z) : Z :=
  let '(r, g, b) := c in r + g + b.

(** ** The upload form

    The state of [UploadInterface] and its handlers.  A handler that awaits
    the validation takes the event the image element fires for the file. *)

(** [s.endsWith(suffix)] *)
Definition endsWith (s suffix : string) : bool :=
  let n := String.length s in
  let m := String.length suffix in
  (m <=? n)%nat && String.eqb (substring (n - m) m s) suffix.

(** [s.startsWith(p)] *)
Definition startsWith (s p : string) : bool := String.prefix p s.

(** What the handlers read of a [File]: [file.name] and [file.type]. *)
Record File : Type := mkFile {
  file_name : string;
  file_type : string
}.

Inductive DropZone : Type := ZoneMarker | ZoneContent.

Record UploadState : Type := mkUploadState {
  markerFile       : option File;
  contentFile      : option File;
  name             : string;
  description      : string;
  uploading        : bool;
  markerValidation : option ValidationResult;
  dragOver         : option DropZone
}.

Definition setMarkerFile (f : option File) (st : UploadState) : UploadState :=
  {| markerFile := f; contentFile := contentFile st; name := name st;
     description := description st; uploading := uploading st;
     markerValidation := markerValidation st; dragOver := dragOver st |}.

Definition setContentFile (f : option File) (st : UploadState) : UploadState :=
  {| markerFile := markerFile st; contentFile := f; name := name st;
     description := description st; uploading := uploading st;
     markerValidation := markerValidation st; dragOver := dragOver st |}.

Definition setMarkerValidation (v : option ValidationResult)
    (st : UploadState) : UploadState :=
  {| markerFile := markerFile st; contentFile := contentFile st;
     name := name st; description := description st;
     uploading := uploading st; markerValidation := v;
     dragOver := dragOver st |}.

Definition setDragOver (z : option DropZone) (st : UploadState) : UploadState :=
  {| markerFile := markerFile st; contentFile := contentFile st;
     name := name st; description := description st;
     uploading := uploading st; markerValidation := markerValidation st;
     dragOver := z |}.

Definition setUploading (b : bool) (st : UploadState) : UploadState :=
  {| markerFile := markerFile st; contentFile := contentFile st;
     name := name st; description := description st;
     uploading := b; markerValidation := markerValidation st;
     dragOver := dragOver st |}.

(** [handleMarkerUpload]: the file is stored at once; the validation is
    stored when the awaited promise is fulfilled, and the handler never
    resumes otherwise. *)
Definition handleMarkerUpload (file : File) (ev : image_event)
    (st : UploadState) : UploadState :=
  let st := setMarkerFile (Some file) st in
  if startsWith (file_type file) "image/" then
    match validateMarkerImage ev with
    | Fulfilled validation => setMarkerValidation (Some validation) st
    | _ => st
    end
  else st.

(** [handleDrop], on [e.dataTransfer.files] and the zone dropped on. *)
Definition handleDrop (files : list File) (type : DropZone)
    (ev : image_event) (st : UploadState) : UploadState :=
  let st := setDragOver None st in
  match files with
  | [] => st
  | file :: _ =>
      match type with
      | ZoneMarker =>
          if startsWith (file_type file) "image/"
          then handleMarkerUpload file ev st
          else st
      | ZoneContent =>
          if startsWith (file_type file) "video/"
             || endsWith (file_name file) ".glb"
             || endsWith (file_name file) ".gltf"
          then setContentFile (Some file) st
          else st
      end
  end.

(** The [onChange] handler of the marker file input, on [e.target.files]. *)
Definition markerInputChange (files : list File) (ev : image_event)
    (st : UploadState) : UploadState :=
  match files with
  | [] => st
  | file :: _ => handleMarkerUpload file ev st
  end.

(** A value appended to the [FormData] of the request. *)
Inductive FormValue : Type :=
| FormFile (f : File)
| FormText (s : string).

(** How the awaited [fetch] of [handleSubmit] ends: a response whose [ok]
    flag is set and whose body parses to an experience, a response that is
    not ok, or an exception ([fetch] or [response.json()] throws). *)
Inductive FetchOutcome (Experience : Type) : Type :=
| ResponseOk (experience : Experience)
| ResponseNotOk (statusText : string)
| FetchThrows.
Arguments ResponseOk {Experience} experience.
Arguments ResponseNotOk {Experience} statusText.
Arguments FetchThrows {Experience}.

(** What [handleSubmit] does to the outside, in order. *)
Inductive SubmitEffect (Experience : Type) : Type :=
| PreventDefault
| PostForm (formData : list (string * FormValue))
| UploadComplete (experience : Experience)
| ConsoleError
| Alert (message : string).
Arguments PreventDefault {Experience}.
Arguments PostForm {Experience} formData.
Arguments UploadComplete {Experience} experience.
Arguments ConsoleError {Experience}.
Arguments Alert {Experience} message.

(** The [contentType] field of the request. *)
Definition contentTypeOf (contentFile : File) : string :=
  if startsWith (file_type contentFile) "video/" then "video" else "model".

(** [handleSubmit], with [String.prototype.trim] of the host as [trim]: the
    state when the handler has finished, and its effects. *)
Definition handleSubmit {Experience : Type} (trim : string -> string)
    (response : FetchOutcome Experience) (st : UploadState)
    : UploadState * list (SubmitEffect Experience) :=
  match markerFile st, contentFile st with
  | Some marker, Some content =>
      if String.eqb (trim (name st)) "" then (st, [PreventDefault])
      else
        let formData :=
          [("markerImage"%string, FormFile marker);
           ("contentFile"%string, FormFile content);
           ("name"%string, FormText (name st));
           ("description"%string, FormText (description st));
           ("contentType"%string, FormText (contentTypeOf content))] in
        match response with
        | ResponseOk experience =>
            ({| markerFile := None; contentFile := None; name := "";
                description := ""; uploading := false;
                markerValidation := None; dragOver := dragOver st |},
             [PreventDefault; PostForm formData; UploadComplete experience])
        | _ =>
            (setUploading false st,
             [PreventDefault; PostForm formData; ConsoleError;
              Alert "Upload failed. Please try again."])
        end
  | _, _ => (st, [PreventDefault])
  end.

(** The [disabled] attribute of the submit button. *)
Definition submitDisabled (trim : string -> string) (st : UploadState) : bool :=
  match markerFile st, contentFile st with
  | Some _, Some _ => String.eqb (trim (name st)) "" || uploading st
  | _, _ => true
  end.

(** The form a submission posts, as [handleSubmit] fills it. *)
Definition formOf (marker content : File) (st : UploadState)
    : list (string * FormValue) :=
  [("markerImage"%string, FormFile marker);
   ("contentFile"%string, FormFile content);
   ("name"%string, FormText (name st));
   ("description"%string, FormText (description st));
   ("contentType"%string, FormText (contentTypeOf content))].

(** Case analysis on the membership of an effect in a concrete trace. *)
Ltac in_effects :=
  repeat match goal with
         | H : In _ [] |- _ => destruct H
         | H : In _ (_ :: _) |- _ => destruct H as [H|H]
         | H : In _ (snd (_, _)) |- _ => cbn [snd] in H
         | H : _ = _ |- _ => discriminate H
         | H : False |- _ => destruct H
         end.

(** More constants of the score, as [spec_float] values. *)
Definition c30 : spec_float := Eval vm_compute in Prim2SF 30.
Definition c1 : spec_float := Eval vm_compute in Prim2SF 1.

(** A column of ten pixels, black but for the last, a dark grey. *)
Definition faint_edge_column : ImageData :=
  mkImageData 1 10 (concat (repeat [0; 0; 0; 255] 9) ++ [93; 93; 93; 255]).

(** Two 2x3 images that differ by a rearrangement of the colour channels
    of each pixel: the channel sums of the six pixels are the same. *)
Definition channels_rgb : ImageData :=
  mkImageData 2 3 [10; 20; 30; 255;   0; 0; 0; 255;
                   200; 0; 100; 255;  90; 90; 90; 255;
                   12; 0; 0; 255;     255; 255; 0; 255].

Definition channels_mixed : ImageData :=
  mkImageData 2 3 [30; 10; 20; 255;   0; 0; 0; 255;
                   0; 150; 150; 255;  255; 15; 0; 255;
                   0; 4; 8; 255;      0; 255; 255; 255].

(** ** The upload endpoint

    [supabase/functions/upload-experience/index.ts].  The storage, the table
    and the second function are the handler's environment: what each call
    answers is given by [Env].  A thrown [Error] is its message, which is
    all the [catch] reads. *)

Module Server.
Import Ascii.

(** [s.split('.')]: the pieces between the dots, never an empty array. *)
Fixpoint split_dot (s : string) : list string :=
  match s with
  | EmptyString => [EmptyString]
  | String c rest =>
      if Ascii.eqb c "."%char then EmptyString :: split_dot rest
      else match split_dot rest with
           | piece :: pieces => String c piece :: pieces
           | [] => [String c EmptyString]
           end
  end.

(** [s.split('.').pop()] *)
Definition extension (s : string) : string := last (split_dot s) EmptyString.

Fixpoint has_dot (s : string) : bool :=
  match s with
  | EmptyString => false
  | String c rest => Ascii.eqb c "."%char || has_dot rest
  end.

(** [formData.get(key)]: the first value of that name, or null. *)
Fixpoint get (formData : list (string * FormValue)) (key : string)
    : option FormValue :=
  match formData with
  | [] => None
  | (k, v) :: rest => if String.eqb k key then Some v else get rest key
  end.

(** Truthiness of a field: null and the empty string are falsy. *)
Definition truthy (v : option FormValue) : bool :=
  match v with
  | None => false
  | Some (FormText s) => negb (String.eqb s "")
  | Some (FormFile _) => true
  end.

Record ExperienceRow : Type := mkRow {
  id               : string;
  name             : option FormValue;
  description      : option FormValue;
  marker_image_url : string;
  content_url      : string;
  content_type     : option FormValue;
  status           : string
}.

(** How the request to process-marker ends. *)
Inductive TriggerOutcome : Type :=
| TriggerOk
| TriggerNotOk
| TriggerThrows (message : string).

Record Env (Experience : Type) : Type := mkEnv {
  (** [crypto.randomUUID()] *)
  randomUUID : string;
  (** [storage.from(bucket).upload(path, file, ..)]: [error.message], if any *)
  storage_upload : string -> string -> File -> option string;
  (** [storage.from(bucket).getPublicUrl(path).data.publicUrl] *)
  getPublicUrl : string -> string -> string;
  (** [from('ar_experiences').insert(row).select().single()] *)
  insert : ExperienceRow -> Experience + string;
  (** the [fetch] of process-marker, on [experienceId] and [markerImageUrl] *)
  process_marker : string -> string -> TriggerOutcome;
  (** the message of the host's [TypeError] for [undefined.split] *)
  type_error : string
}.
Arguments randomUUID {Experience} e.
Arguments storage_upload {Experience} e bucket path file.
Arguments getPublicUrl {Experience} e bucket path.
Arguments insert {Experience} e row.
Arguments process_marker {Experience} e experienceId markerImageUrl.
Arguments type_error {Experience} e.

(** A request: its method, and what [req.formData()] gives, the fields or
    the message of the error it rejects with. *)
Record Request : Type := mkRequest {
  method   : string;
  formData : list (string * FormValue) + string
}.

Inductive Effect : Type :=
| StorageUpload (bucket path : string) (file : File)
| Insert (row : ExperienceRow)
| TriggerProcessing (experienceId markerImageUrl : string)
| ConsoleError (message : string).

Inductive Body (Experience : Type) : Type :=
| BodyNull
| BodySuccess (experienceId : string) (experience : Experience)
| BodyFailure (error : string).
Arguments BodyNull {Experience}.
Arguments BodySuccess {Experience} experienceId experience.
Arguments BodyFailure {Experience} error.

Record Response (Experience : Type) : Type := mkResponse {
  response_status : Z;
  response_body   : Body Experience
}.
Arguments mkResponse {Experience} response_status response_body.
Arguments response_status {Experience} r.
Arguments response_body {Experience} r.

(** The [try] block: the effects so far, and a value or the message of the
    error thrown. *)
Definition M (A : Type) : Type := list Effect * (A + string).

Definition ret {A : Type} (a : A) : M A := ([], inl a).

Definition throw {A : Type} (message : string) : M A := ([], inr message).

Definition emit (e : Effect) : M unit := ([e], inl tt).

Definition bind {A B : Type} (m : M A) (k : A -> M B) : M B :=
  match m with
  | (trace, inl a) => let (trace', r) := k a in (trace ++ trace', r)
  | (trace, inr message) => (trace, inr message)
  end.

Notation "x <- m ;; k" := (bind m (fun x => k))
  (at level 61, m at next level, right associativity).
Notation "m ;;; k" := (bind m (fun _ => k))
  (at level 61, right associativity).

(** [field.name] of a value that passed the truthiness test: a string has
    no [name], and [undefined.split] throws. *)
Definition file_of {Experience : Type} (env : Env Experience)
    (v : option FormValue) : M File :=
  match v with
  | Some (FormFile f) => ret f
  | _ => throw (type_error env)
  end.

Definition upload {Experience : Type} (env : Env Experience)
    (bucket path : string) (file : File) (failure : string) : M unit :=
  emit (StorageUpload bucket path file) ;;;
  match storage_upload env bucket path file with
  | Some message => throw (failure ++ message)%string
  | None => ret tt
  end.

Definition markerPath (experienceId : string) (markerImage : File) : string :=
  (experienceId ++ "_marker." ++ extension (file_name markerImage))%string.

Definition contentPath (experienceId : string) (contentFile : File) : string :=
  (experienceId ++ "_content." ++ extension (file_name contentFile))%string.

Definition try_block {Experience : Type} (env : Env Experience)
    (req : Request) : M (string * Experience) :=
  fields <- match formData req with
            | inl fields => ret fields
            | inr message => throw message
            end ;;
  let markerImage := get fields "markerImage" in
  let contentFile := get fields "contentFile" in
  let name := get fields "name" in
  let description := get fields "description" in
  let contentType := get fields "contentType" in
  if negb (truthy markerImage) || negb (truthy contentFile)
     || negb (truthy name)
  then throw "Missing required fields"
  else
    let experienceId := randomUUID env in
    marker <- file_of env markerImage ;;
    let markerImagePath := markerPath experienceId marker in
    upload env "ar-markers" markerImagePath marker
      "Failed to upload marker image: " ;;;
    content <- file_of env contentFile ;;
    let contentFilePath := contentPath experienceId content in
    upload env "ar-content" contentFilePath content
      "Failed to upload content file: " ;;;
    let markerImageUrl := getPublicUrl env "ar-markers" markerImagePath in
    let contentFileUrl := getPublicUrl env "ar-content" contentFilePath in
    let row :=
      {| id := experienceId; name := name; description := description;
         marker_image_url := markerImageUrl; content_url := contentFileUrl;
         content_type := contentType; status := "processing" |} in
    emit (Insert row) ;;;
    experience <- match insert env row with
                  | inl experience => ret experience
                  | inr message =>
                      throw ("Failed to create experience: " ++ message)%string
                  end ;;
    emit (TriggerProcessing experienceId markerImageUrl) ;;;
    match process_marker env experienceId markerImageUrl with
    | TriggerOk => ret tt
    | TriggerNotOk => emit (ConsoleError "Failed to trigger marker processing")
    | TriggerThrows message => throw message
    end ;;;
    ret (experienceId, experience).

(** The handler: the effects in order, and the response. *)
Definition serve {Experience : Type} (env : Env Experience) (req : Request)
    : list Effect * Response Experience :=
  if String.eqb (method req) "OPTIONS" then ([], mkResponse 200 BodyNull)
  else
    match try_block env req with
    | (trace, inl (experienceId, experience)) =>
        (trace, mkResponse 200 (BodySuccess experienceId experience))
    | (trace, inr message) =>
        (trace ++ [ConsoleError "Error uploading experience:"],
         mkResponse 500 (BodyFailure message))
    end.

(** The calls of a trace that reach the storage, the table or the second
    function: the trace without what is written to the console. *)
Definition calls (trace : list Effect) : list Effect :=
  filter (fun e => match e with ConsoleError _ => false | _ => true end) trace.

End Server.

(** The row a request inserts, and its calls when it goes through, in the
    order of the source. *)
Definition rowOf {Experience : Type} (env : Server.Env Experience)
    (fields : list (string * FormValue)) (marker content : File)
    : Server.ExperienceRow :=
  let experienceId := Server.randomUUID env in
  Server.mkRow experienceId (Server.get fields "name")
    (Server.get fields "description")
    (Server.getPublicUrl env "ar-markers"
       (Server.markerPath experienceId marker))
    (Server.getPublicUrl env "ar-content"
       (Server.contentPath experienceId content))
    (Server.get fields "contentType") "processing".

Definition plan {Experience : Type} (env : Server.Env Experience)
    (fields : list (string * FormValue)) (marker content : File)
    : list Server.Effect :=
  let experienceId := Server.randomUUID env in
  [Server.StorageUpload "ar-markers"
     (Server.markerPath experienceId marker) marker;
   Server.StorageUpload "ar-content"
     (Server.contentPath experienceId content) content;
   Server.Insert (rowOf env fields marker content);
   Server.TriggerProcessing experienceId
     (Server.marker_image_url (rowOf env fields marker content))].

(** The environment in which process-marker answers [outcome]. *)
Definition with_trigger {Experience : Type} (env : Server.Env Experience)
    (outcome : Server.TriggerOutcome) : Server.Env Experience :=
  Server.mkEnv Experience (Server.randomUUID env) (Server.storage_upload env)
    (Server.getPublicUrl env) (Server.insert env) (fun _ _ => outcome)
    (Server.type_error env).

Ltac server_cases :=
  try reflexivity; try lia;
  try solve [intuition (try lia; try discriminate; try congruence; eauto)];
  try solve [split; [lia | intros (_ & _ & x & H); discriminate]].

(** Case analysis on everything a goal branches on, innermost first. *)
Ltac server_run :=
  repeat match goal with
         | |- context [match ?x with _ => _ end] =>
             lazymatch x with
             | context [match _ with _ => _ end] => fail
             | _ => destruct x eqn:?
             end; cbn [fst snd app negb orb Server.calls filter]
         end.

(** A request and an environment in which every call succeeds but the
    trigger, which answers with a status that is not ok. *)
Definition example_fields : list (string * FormValue) :=
  [("markerImage"%string, FormFile (mkFile "poster.v2.png" "image/png"));
   ("contentFile"%string, FormFile (mkFile "chair.glb" ""));
   ("name"%string, FormText "Chair");
   ("description"%string, FormText "");
   ("contentType"%string, FormText "model")].

Definition example_request : Server.Request :=
  Server.mkRequest "POST" (inl example_fields).

Definition example_env : Server.Env string :=
  Server.mkEnv string "0b5e" (fun _ _ _ => None)
    (fun bucket path => (bucket ++ "/" ++ path)%string)
    (fun row => inl (Server.id row)) (fun _ _ => Server.TriggerNotOk)
    "TypeError".

(** A request without description and content type. *)
Definition bare_fields : list (string * FormValue) :=
  [("markerImage"%string, FormFile (mkFile "poster.png" "image/png"));
   ("contentFile"%string, FormFile (mkFile "clip.mp4" "video/mp4"));
   ("name"%string, FormText "Clip")].

Definition bare_request : Server.Request :=
  Server.mkRequest "POST" (inl bare_fields).

(** ** From the page to the endpoint

    What the endpoint parses is not the [FormData] object of the page but
    its encoding as a request body, decoded again.  [arrives_as sent
    received] is what is assumed of that round trip: the fields arrive
    under their names and in their order, a file arrives as a file and a
    text as a text, and the texts of [name] and [contentType] arrive
    unchanged.  Nothing is assumed of the name and the type of a file as
    they arrive, nor of the text of the description. *)
Definition value_arrives_as (key : string) (sent received : FormValue)
    : bool :=
  match sent, received with
  | FormFile _, FormFile _ => true
  | FormText s, FormText t => String.eqb key "description" || String.eqb s t
  | _, _ => false
  end.

Fixpoint arrives_as (sent received : list (string * FormValue)) : bool :=
  match sent, received with
  | [], [] => true
  | (k, v) :: sent', (k', v') :: received' =>
      String.eqb k k' && value_arrives_as k v v' && arrives_as sent' received'
  | _, _ => false
  end.

(** The form of a page with a marker and a model whose type the browser
    left blank, and the fields as an endpoint may decode them: the blank
    type has become application/octet-stream. *)
Definition chair_state : UploadState :=
  mkUploadState (Some (mkFile "poster.v2.png" "image/png"))
    (Some (mkFile "chair.glb" "")) " Chair " "" false None None.

Definition chair_received : list (string * FormValue) :=
  [("markerImage"%string, FormFile (mkFile "poster.v2.png" "image/png"));
   ("contentFile"%string,
    FormFile (mkFile "chair.glb" "application/octet-stream"));
   ("name"%string, FormText " Chair ");
   ("description"%string, FormText "");
   ("contentType"%string, FormText "model")].

(** ** The page ([src/App.tsx])

    The two state variables of [App], its four handlers, and what it
    renders.  A handler may run in any state: [handleUploadComplete] is
    called when the upload request returns, which may be after the user has
    left the upload view. *)

Module App.

Inductive ViewMode : Type := gallery | upload | viewer.

Record State (Experience : Type) : Type := mkState {
  viewMode           : ViewMode;
  selectedExperience : option Experience
}.
Arguments mkState {Experience} viewMode selectedExperience.
Arguments viewMode {Experience} s.
Arguments selectedExperience {Experience} s.

Definition initial {Experience : Type} : State Experience :=
  mkState gallery None.

Definition handleCreateNew {Experience : Type} (st : State Experience)
    : State Experience :=
  mkState upload (selectedExperience st).

Definition handleUploadComplete {Experience : Type} (st : State Experience)
    : State Experience :=
  mkState gallery (selectedExperience st).

Definition handleViewExperience {Experience : Type} (experience : Experience)
    (st : State Experience) : State Experience :=
  mkState viewer (Some experience).

Definition handleBackToGallery {Experience : Type} (st : State Experience)
    : State Experience :=
  mkState gallery None.

Inductive Event (Experience : Type) : Type :=
| CreateNew
| UploadComplete
| ViewExperience (experience : Experience)
| BackToGallery.
Arguments CreateNew {Experience}.
Arguments UploadComplete {Experience}.
Arguments ViewExperience {Experience} experience.
Arguments BackToGallery {Experience}.

Definition dispatch {Experience : Type} (st : State Experience)
    (ev : Event Experience) : State Experience :=
  match ev with
  | CreateNew => handleCreateNew st
  | UploadComplete => handleUploadComplete st
  | ViewExperience experience => handleViewExperience experience st
  | BackToGallery => handleBackToGallery st
  end.

Definition run {Experience : Type} (events : list (Event Experience))
    : State Experience :=
  fold_left dispatch events initial.

(** What the [switch] of [App] returns. *)
Inductive View (Experience : Type) : Type :=
| UploadView
| ViewerView (experience : Experience)
| NullView
| GalleryView.
Arguments UploadView {Experience}.
Arguments ViewerView {Experience} experience.
Arguments NullView {Experience}.
Arguments GalleryView {Experience}.

Definition render {Experience : Type} (st : State Experience)
    : View Experience :=
  match viewMode st with
  | upload => UploadView
  | viewer =>
      match selectedExperience st with
      | Some experience => ViewerView experience
      | None => NullView
      end
  | gallery => GalleryView
  end.

End App.
(** ** Rounding to binary64

    Facts about [SpecFloat]'s rounding, for mantissas of at least 53 bits in
    the normal range. *)

Lemma iter_pos_nat {A : Type} (f : A -> A) (p : positive) :
  forall x, iter_pos f p x = Nat.iter (Pos.to_nat p) f x.
Proof.
  induction p as [p IH | p IH | ]; intros x; simpl iter_pos.
  - rewrite !IH, Pos2Nat.inj_xI, Nat.iter_succ_r.
    replace (2 * Pos.to_nat p)%nat with (Pos.to_nat p + Pos.to_nat p)%nat by lia.
    now rewrite Nat.iter_add.
  - rewrite !IH, Pos2Nat.inj_xO.
    replace (2 * Pos.to_nat p)%nat with (Pos.to_nat p + Pos.to_nat p)%nat by lia.
    now rewrite Nat.iter_add.
  - reflexivity.
Qed.

Lemma shr_1_m (mrs : shr_record) :
  0 <= shr_m mrs -> shr_m (shr_1 mrs) = shr_m mrs / 2.
Proof.
  destruct mrs as [m r s]; simpl; intros Hm.
  destruct m as [ | p | p ]; [reflexivity | | lia].
  destruct p as [p | p | ]; simpl shr_m.
  - apply Z.div_unique with (r := 1); lia.
  - apply Z.div_unique with (r := 0); lia.
  - reflexivity.
Qed.

Lemma shr_m_iter (n : nat) (mrs : shr_record) :
  0 <= shr_m mrs ->
  shr_m (Nat.iter n shr_1 mrs) = shr_m mrs / 2 ^ Z.of_nat n.
Proof.
  intros Hm; induction n as [ | n IH].
  - simpl. now rewrite Z.div_1_r.
  - rewrite Nat.iter_succ, shr_1_m, IH.
    + rewrite Nat2Z.inj_succ, Z.pow_succ_r by lia.
      rewrite Z.div_div by lia. f_equal; lia.
    + rewrite IH. apply Z.div_pos; lia.
Qed.

Lemma shr_spec (mrs : shr_record) (e n : Z) :
  0 <= shr_m mrs ->
  shr_m (fst (shr mrs e n)) = shr_m mrs / 2 ^ Z.max 0 n /\
  snd (shr mrs e n) = e + Z.max 0 n.
Proof.
  intros Hm. destruct n as [ | p | p ]; simpl shr; simpl fst; simpl snd.
  - rewrite Z.div_1_r. lia.
  - rewrite iter_pos_nat, shr_m_iter by assumption.
    rewrite positive_nat_Z. rewrite Z.max_r by lia. auto.
  - rewrite Z.max_l by lia. rewrite Z.div_1_r. lia.
Qed.

Lemma shr_record_of_loc_m (m : Z) (l : location) :
  shr_m (shr_record_of_loc m l) = m.
Proof. destruct l as [ | [ | | ] ]; reflexivity. Qed.

Lemma shr_fexp_spec (m e : Z) (l : location) :
  0 <= m ->
  let n := Z.max 0 (fexp prec emax (Zdigits2 m + e) - e) in
  shr_m (fst (shr_fexp prec emax m e l)) = m / 2 ^ n /\
  snd (shr_fexp prec emax m e l) = e + n.
Proof.
  intros Hm n. unfold shr_fexp.
  rewrite <- (shr_record_of_loc_m m l) at 3.
  apply shr_spec. now rewrite shr_record_of_loc_m.
Qed.

Lemma round_nearest_even_bounds (m : Z) (l : location) :
  m <= round_nearest_even m l <= m + 1.
Proof.
  unfold round_nearest_even.
  destruct l as [ | [ | | ] ]; try lia.
  destruct (Z.even m); lia.
Qed.

Lemma digits2_pos_size (p : positive) : digits2_pos p = Pos.size p.
Proof. induction p; simpl; congruence. Qed.

Lemma digits2_pos_bounds (p : positive) :
  2 ^ (Z.pos (digits2_pos p) - 1) <= Z.pos p < 2 ^ Z.pos (digits2_pos p).
Proof.
  rewrite digits2_pos_size. split.
  - pose proof (Pos.size_le p) as H.
    apply Pos2Z.pos_le_pos in H.
    rewrite Pos2Z.inj_pow in H.
    replace (Z.pos (Pos.size p)) with (Z.succ (Z.pos (Pos.size p) - 1)) in H by lia.
    rewrite Z.pow_succ_r in H by lia. lia.
  - pose proof (Pos.size_gt p) as H.
    apply Pos2Z.pos_lt_pos in H.
    now rewrite Pos2Z.inj_pow in H.
Qed.

Lemma Zdigits2_unique (m d : Z) :
  2 ^ (d - 1) <= m < 2 ^ d -> 0 < d -> Zdigits2 m = d.
Proof.
  intros [Hlo Hhi] Hd.
  assert (Hm : 0 < m) by (pose proof (Z.pow_pos_nonneg 2 (d - 1)); lia).
  destruct m as [ | p | p ]; try lia. simpl.
  pose proof (digits2_pos_bounds p) as [Hlo' Hhi'].
  set (d' := Z.pos (digits2_pos p)) in *.
  destruct (Z.lt_trichotomy d' d) as [Hlt | [Heq | Hgt]]; [ | assumption | ].
  - assert (2 ^ d' <= 2 ^ (d - 1)) by (apply Z.pow_le_mono_r; lia). lia.
  - assert (2 ^ d <= 2 ^ (d' - 1)) by (apply Z.pow_le_mono_r; lia). lia.
Qed.


Lemma binary_round_aux_sign (s : bool) (M E : Z) (l : location) :
  0 <= M -> sf_signed s (binary_round_aux prec emax s M E l) = true.
Proof.
  intros HM. unfold binary_round_aux.
  pose proof (shr_fexp_spec M E l HM) as [H1 _].
  destruct (shr_fexp prec emax M E l) as [mrs' e']. simpl fst in H1.
  set (m1 := round_nearest_even (shr_m mrs') (loc_of_shr_record mrs')).
  assert (Hm1 : 0 <= m1).
  { pose proof (round_nearest_even_bounds (shr_m mrs') (loc_of_shr_record mrs')).
    assert (0 <= shr_m mrs') by (rewrite H1; apply Z.div_pos; lia).
    unfold m1; lia. }
  pose proof (shr_fexp_spec m1 e' loc_Exact Hm1) as [H2 _].
  destruct (shr_fexp prec emax m1 e' loc_Exact) as [mrs'' e'']. simpl fst in H2.
  destruct (shr_m mrs'') as [ | p | p ].
  - simpl. apply eqb_reflx.
  - destruct (e'' <=? emax - prec); simpl; apply eqb_reflx.
  - exfalso.
    assert (0 <= m1 / 2 ^ Z.max 0 (fexp prec emax (Zdigits2 m1 + e') - e'))
      by (apply Z.div_pos; lia).
    lia.
Qed.

Lemma fexp_normal (k : Z) : -1021 <= k -> fexp prec emax k = k - 53.
Proof. unfold fexp, SpecFloat.emin, prec, emax. lia. Qed.

Lemma Zdigits2_bounds (M : Z) :
  0 < M -> 2 ^ (Zdigits2 M - 1) <= M < 2 ^ Zdigits2 M.
Proof.
  destruct M as [ | p | p ]; try lia. intros _. apply digits2_pos_bounds.
Qed.

Lemma binary_round_aux_normal (s : bool) (M E : Z) (l : location) :
  0 < M -> 53 <= Zdigits2 M -> -1074 <= Zdigits2 M + E - 53 ->
  exists m2 e2,
    binary_round_aux prec emax s M E l =
      (if e2 <=? 971 then S754_finite s m2 e2 else S754_infinity s) /\
    Zdigits2 M + E - 53 <= e2 <= Zdigits2 M + E - 52 /\
    (e2 = Zdigits2 M + E - 53 -> M / 2 ^ (Zdigits2 M - 53) <= Z.pos m2).
Proof.
  intros HM Hd He.
  pose proof (Zdigits2_bounds M HM) as [Hlo Hhi].
  set (d := Zdigits2 M) in *.
  unfold binary_round_aux.
  pose proof (shr_fexp_spec M E l (Z.lt_le_incl _ _ HM)) as [H1 H1e].
  fold d in H1, H1e.
  rewrite fexp_normal in H1, H1e by lia.
  replace (Z.max 0 (d + E - 53 - E)) with (d - 53) in H1, H1e by lia.
  destruct (shr_fexp prec emax M E l) as [mrs' e1].
  simpl fst in H1; simpl snd in H1e.
  set (m1 := M / 2 ^ (d - 53)) in *.
  assert (Hp : 0 < 2 ^ (d - 53)) by (apply Z.pow_pos_nonneg; lia).
  assert (Hm1 : 2 ^ 52 <= m1 < 2 ^ 53).
  { split.
    - apply Z.div_le_lower_bound; [assumption | ].
      rewrite <- Z.pow_add_r by lia.
      replace (d - 53 + 52) with (d - 1) by lia. assumption.
    - apply Z.div_lt_upper_bound; [assumption | ].
      rewrite <- Z.pow_add_r by lia.
      replace (d - 53 + 53) with d by lia. assumption. }
  pose proof (round_nearest_even_bounds (shr_m mrs') (loc_of_shr_record mrs')) as Hr.
  set (m1' := round_nearest_even (shr_m mrs') (loc_of_shr_record mrs')) in *.
  rewrite H1 in Hr.
  assert (Hm1' : 0 <= m1') by lia.
  pose proof (shr_fexp_spec m1' e1 loc_Exact Hm1') as [H2 H2e].
  destruct (shr_fexp prec emax m1' e1 loc_Exact) as [mrs'' e2].
  simpl fst in H2; simpl snd in H2e.
  change (emax - prec) with 971.
  destruct (Z_lt_le_dec m1' (2 ^ 53)) as [Hlt | Hge].
  - assert (Hd' : Zdigits2 m1' = 53) by (apply Zdigits2_unique; simpl Z.sub; lia).
    rewrite Hd', fexp_normal in H2, H2e by lia.
    replace (Z.max 0 (53 + e1 - 53 - e1)) with 0 in H2, H2e by lia.
    rewrite Z.pow_0_r, Z.div_1_r in H2.
    rewrite H2.
    destruct m1' as [ | p | p ]; try lia.
    exists p, e2. split; [reflexivity | ].
    split; [lia | ]. intros _. lia.
  - assert (Hm : m1' = 2 ^ 53) by lia.
    assert (Hd' : Zdigits2 m1' = 54) by (rewrite Hm; reflexivity).
    rewrite Hd', fexp_normal in H2, H2e by lia.
    replace (Z.max 0 (54 + e1 - 53 - e1)) with 1 in H2, H2e by lia.
    rewrite Hm in H2. change (2 ^ 53 / 2 ^ 1) with (2 ^ 52) in H2.
    rewrite H2. change (2 ^ 52) with (Z.pos (2 ^ 52)).
    exists (2 ^ 52)%positive, e2. split; [reflexivity | ].
    split; [lia | ]. intros He2. lia.
Qed.




Lemma binary_round_sign (s : bool) (m : positive) (e : Z) :
  sf_signed s (binary_round prec emax s m e) = true.
Proof.
  unfold binary_round.
  destruct (shl_align m e (fexp prec emax (Z.pos (digits2_pos m) + e))) as [mz ez].
  apply binary_round_aux_sign. lia.
Qed.

Lemma SFadd_nonneg (x y : spec_float) :
  sf_nonneg x = true -> sf_nonneg y = true ->
  sf_nonneg (SFadd prec emax x y) = true.
Proof.
  destruct x as [ [ | ] | [ | ] | | [ | ] mx ex ];
    destruct y as [ [ | ] | [ | ] | | [ | ] my ey ];
    try discriminate; try reflexivity.
  intros _ _. unfold SFadd, cond_Zopp, sf_nonneg.
  apply binary_round_sign.
Qed.

Lemma SFmul_nonneg (x y : spec_float) :
  sf_nonneg x = true -> sf_posfin y = true ->
  sf_nonneg (SFmul prec emax x y) = true.
Proof.
  destruct x as [ [ | ] | [ | ] | | [ | ] mx ex ];
    destruct y as [ [ | ] | [ | ] | | [ | ] my ey ];
    try discriminate; try reflexivity.
  intros _ _. unfold SFmul, sf_nonneg.
  apply binary_round_aux_sign. lia.
Qed.

Lemma SFdiv_core_binary_nonneg (m1 e1 m2 e2 : Z) :
  0 <= m1 -> 0 < m2 ->
  0 <= fst (fst (SFdiv_core_binary prec emax m1 e1 m2 e2)).
Proof.
  intros H1 H2. unfold SFdiv_core_binary.
  set (s := e1 - e2 - _).
  set (m' := match s with Z0 => m1 | Z.pos _ => Z.shiftl m1 s | Z.neg _ => 0 end).
  assert (Hm' : 0 <= m').
  { unfold m'. destruct s; try lia. now apply Z.shiftl_nonneg. }
  pose proof (Z.div_pos m' m2 Hm' H2) as Hq.
  unfold Z.div in Hq.
  destruct (Z.div_eucl m' m2) as [q r]. exact Hq.
Qed.

Lemma SFdiv_nonneg (x y : spec_float) :
  sf_nonneg x = true -> sf_posfin y = true ->
  sf_nonneg (SFdiv prec emax x y) = true.
Proof.
  destruct x as [ [ | ] | [ | ] | | [ | ] mx ex ];
    destruct y as [ [ | ] | [ | ] | | [ | ] my ey ];
    try discriminate; try reflexivity.
  intros _ _. unfold SFdiv, sf_nonneg.
  pose proof (SFdiv_core_binary_nonneg (Z.pos mx) ex (Z.pos my) ey) as H.
  destruct (SFdiv_core_binary prec emax (Z.pos mx) ex (Z.pos my) ey) as [[mz ez] lz].
  apply binary_round_aux_sign. apply H; lia.
Qed.

Lemma binary_normalize_not_nan (m e : Z) :
  binary_normalize prec emax m e false <> S754_nan.
Proof.
  destruct m as [ | p | p ]; simpl; try discriminate.
  - intros H. pose proof (binary_round_sign false p e) as Hs.
    rewrite H in Hs. discriminate.
  - intros H. pose proof (binary_round_sign true p e) as Hs.
    rewrite H in Hs. discriminate.
Qed.

Lemma SFabs_nonneg (x : spec_float) :
  x <> S754_nan -> sf_nonneg (SFabs x) = true.
Proof. destruct x; try reflexivity. congruence. Qed.

Lemma SFsub_finite_not_nan (x y : spec_float) :
  sf_finite x = true -> sf_finite y = true -> SFsub prec emax x y <> S754_nan.
Proof.
  destruct x as [ [ | ] | [ | ] | | sx mx ex ];
    destruct y as [ [ | ] | [ | ] | | sy my ey ];
    try discriminate; intros _ _; try (simpl; discriminate).
  unfold SFsub. apply binary_normalize_not_nan.
Qed.

Lemma SFsub_diag (x : spec_float) :
  sf_finite x = true -> SFsub prec emax x x = S754_zero false.
Proof.
  destruct x as [ [ | ] | [ | ] | | sx mx ex ]; try discriminate;
    intros _; try reflexivity.
  unfold SFsub. rewrite Z.sub_diag. reflexivity.
Qed.


Lemma of_int_spec (z : Z) :
  0 <= z < 2 ^ 63 ->
  Prim2SF (Js.of_int z) = binary_normalize prec emax z 0 false.
Proof.
  intros Hz. unfold Js.of_int.
  rewrite of_uint63_spec, Uint63.of_Z_spec.
  rewrite Z.mod_small; [reflexivity | ].
  change wB with (2 ^ 63). exact Hz.
Qed.

Lemma iter_xO_Z (m k : positive) :
  Z.pos (Pos.iter xO m k) = Z.pos m * 2 ^ Z.pos k.
Proof.
  induction k as [ | k IH ] using Pos.peano_ind.
  - simpl. lia.
  - rewrite Pos.iter_succ, Pos2Z.inj_xO, IH, Pos2Z.inj_succ.
    rewrite Z.pow_succ_r by lia. ring.
Qed.

Lemma valid_binary_digits (s : bool) (m : positive) (e : Z) :
  valid_binary (S754_finite s m e) = true -> -1074 < e ->
  Zdigits2 (Z.pos m) = 53.
Proof.
  unfold SpecFloat.valid_binary, bounded, canonical_mantissa.
  intros H He. apply andb_true_iff in H. destruct H as [H _].
  apply Z.eqb_eq in H. revert H.
  unfold fexp, SpecFloat.emin, prec, emax. simpl Zdigits2. lia.
Qed.

Lemma of_int_posfin (z : Z) :
  0 < z < 2 ^ 53 ->
  exists m e, Prim2SF (Js.of_int z) = S754_finite false m e /\
              Zdigits2 (Z.pos m) = 53 /\ -52 <= e <= 1.
Proof.
  intros Hz.
  pose proof (Prim2SF_valid (Js.of_int z)) as Hv.
  rewrite of_int_spec in * by lia.
  destruct z as [ | p | p ]; try lia.
  pose proof (digits2_pos_bounds p) as [Hlo Hhi].
  unfold binary_normalize, binary_round in *.
  set (d := Z.pos (digits2_pos p)) in *.
  assert (Hd : 1 <= d <= 53).
  { split; [unfold d; lia | ].
    destruct (Z_le_gt_dec d 53) as [ | Hgt ]; [assumption | exfalso].
    assert (2 ^ 53 <= 2 ^ (d - 1)) by (apply Z.pow_le_mono_r; lia). lia. }
  rewrite Z.add_0_r, fexp_normal in * by lia.
  assert (Hshl : exists mz, shl_align p 0 (d - 53) = (mz, d - 53) /\
                            Zdigits2 (Z.pos mz) = 53).
  { unfold shl_align.
    destruct (d - 53 - 0) as [ | k | k ] eqn:Hk; try lia.
    - exists p. split; [f_equal; lia | ]. simpl. fold d. lia.
    - exists (Pos.iter xO p k). split; [reflexivity | ].
      apply Zdigits2_unique; [ | lia].
      rewrite iter_xO_Z.
      assert (Hk' : Z.pos k = 53 - d) by lia.
      assert (E1 : 2 ^ (53 - 1) = 2 ^ (d - 1) * 2 ^ Z.pos k)
        by (rewrite <- Z.pow_add_r by lia; f_equal; lia).
      assert (E2 : 2 ^ 53 = 2 ^ d * 2 ^ Z.pos k)
        by (rewrite <- Z.pow_add_r by lia; f_equal; lia).
      assert (0 < 2 ^ Z.pos k) by (apply Z.pow_pos_nonneg; lia).
      rewrite E1, E2.
      split; [apply Z.mul_le_mono_nonneg_r | apply Z.mul_lt_mono_pos_r]; lia. }
  destruct Hshl as (mz & Hshl & Hdz).
  rewrite Hshl in *.
  destruct (binary_round_aux_normal false (Z.pos mz) (d - 53) loc_Exact)
    as (m2 & e2 & Heq & He2 & _); try lia.
  rewrite Hdz in He2.
  rewrite Heq in *.
  replace (e2 <=? 971) with true in * by (symmetry; apply Z.leb_le; lia).
  exists m2, e2. split; [reflexivity | ].
  split; [ | lia].
  apply (valid_binary_digits false m2 e2 Hv). lia.
Qed.

Lemma div_four_posfin (x : float) (m : positive) (e : Z) :
  Prim2SF x = S754_finite false m e ->
  Zdigits2 (Z.pos m) = 53 -> -1000 <= e <= 900 ->
  exists m' e', Prim2SF (x / 4)%float = S754_finite false m' e'.
Proof.
  intros Hx Hd He.
  rewrite div_spec, Hx.
  change (Prim2SF 4) with (S754_finite false 4503599627370496 (-50)).
  unfold SF64div, SFdiv, SFdiv_core_binary.
  rewrite Hd. change (Zdigits2 (Z.pos 4503599627370496)) with 53.
  rewrite fexp_normal by lia.
  replace (Z.min (53 + e - (53 + -50) - 53) (e - -50)) with (e - 3) by lia.
  replace (e - -50 - (e - 3)) with 53 by lia.
  pose proof (Z.div_mod (Z.shiftl (Z.pos m) 53) (Z.pos 4503599627370496)) as Hdm.
  unfold Z.div, Z.modulo in Hdm.
  destruct (Z.div_eucl (Z.shiftl (Z.pos m) 53) (Z.pos 4503599627370496)) as [q r] eqn:Hqr.
  assert (Hq : q = 2 * Z.pos m).
  { pose proof (Z.mod_pos_bound (Z.shiftl (Z.pos m) 53) (Z.pos 4503599627370496)) as Hr.
    unfold Z.modulo in Hr. rewrite Hqr in Hr.
    rewrite Z.shiftl_mul_pow2 in Hdm by lia.
    change (2 ^ 53) with (2 * 4503599627370496) in Hdm.
    specialize (Hdm ltac:(lia)). specialize (Hr ltac:(lia)). nia. }
  pose proof (Zdigits2_bounds (Z.pos m) ltac:(lia)) as Hb. rewrite Hd in Hb.
  assert (Hdq : Zdigits2 q = 54).
  { apply Zdigits2_unique; [ | lia]. rewrite Hq.
    change (2 ^ (54 - 1)) with (2 * 2 ^ (53 - 1)).
    change (2 ^ 54) with (2 * 2 ^ 53). lia. }
  destruct (binary_round_aux_normal (xorb false false) q (e - 3)
              (new_location (Z.pos 4503599627370496) r))
    as (m2 & e2 & Heq & He2 & _); try lia.
  rewrite Hdq in He2. rewrite Heq.
  replace (e2 <=? 971) with true by (symmetry; apply Z.leb_le; lia).
  exists m2, e2. reflexivity.
Qed.


Lemma shiftl_mono (a b n : Z) : a <= b -> Z.shiftl a n <= Z.shiftl b n.
Proof.
  intros Hab. destruct (Z_le_gt_dec 0 n) as [Hn | Hn].
  - rewrite !Z.shiftl_mul_pow2 by assumption.
    apply Z.mul_le_mono_nonneg_r; [apply Z.pow_nonneg; lia | assumption].
  - rewrite !Z.shiftl_div_pow2 by lia.
    apply Z.div_le_mono; [apply Z.pow_pos_nonneg; lia | assumption].
Qed.

Lemma Zdigits2_lower (M k : Z) : 0 <= k -> 2 ^ k <= M -> k + 1 <= Zdigits2 M.
Proof.
  intros Hk HM.
  assert (0 < M) by (pose proof (Z.pow_pos_nonneg 2 k); lia).
  pose proof (Zdigits2_bounds M H) as [_ Hhi].
  assert (Hlt : 2 ^ k < 2 ^ Zdigits2 M) by lia.
  apply Z.pow_lt_mono_r_iff in Hlt; try lia.
  destruct M; simpl; lia.
Qed.

Lemma shiftl_ge100_digits (M E : Z) :
  0 < M -> 100 <= Z.shiftl M E -> 7 <= Zdigits2 M + E.
Proof.
  intros HM Hv.
  pose proof (Zdigits2_bounds M HM) as [_ Hhi].
  assert (Hd : 0 < Zdigits2 M) by (destruct M; simpl; lia).
  set (d := Zdigits2 M) in *.
  destruct (Z_le_gt_dec 7 (d + E)) as [ | Hlt ]; [assumption | exfalso].
  assert (Hp : 2 ^ d <= 2 ^ (6 - E)) by (apply Z.pow_le_mono_r; lia).
  destruct (Z_le_gt_dec 0 E) as [HE | HE].
  - rewrite Z.shiftl_mul_pow2 in Hv by assumption.
    assert (0 < 2 ^ E) by (apply Z.pow_pos_nonneg; lia).
    assert (2 ^ (6 - E) * 2 ^ E = 64)
      by (rewrite <- Z.pow_add_r by lia; replace (6 - E + E) with 6 by lia;
          reflexivity).
    nia.
  - rewrite Z.shiftl_div_pow2 in Hv by lia.
    assert (0 < 2 ^ (- E)) by (apply Z.pow_pos_nonneg; lia).
    assert (2 ^ (6 - E) = 2 ^ (- E) * 64)
      by (replace (6 - E) with (- E + 6) by lia; rewrite Z.pow_add_r by lia;
          reflexivity).
    assert (M / 2 ^ (- E) < 64) by (apply Z.div_lt_upper_bound; lia).
    lia.
Qed.

Lemma binary_round_aux_ge100 (M E : Z) (l : location) :
  0 < M -> 53 <= Zdigits2 M -> 100 <= Z.shiftl M E ->
  SFleb c100 (binary_round_aux prec emax false M E l) = true.
Proof.
  intros HM Hd Hv.
  pose proof (shiftl_ge100_digits M E HM Hv) as H7.
  destruct (binary_round_aux_normal false M E l HM Hd ltac:(lia))
    as (m2 & e2 & Heq & He2 & Hm2).
  rewrite Heq. destruct (e2 <=? 971); [ | reflexivity].
  unfold SFleb, SFcompare, c100.
  destruct (Z.compare_spec (-46) e2) as [He | He | He];
    [ | reflexivity | exfalso; lia].
  assert (Hm : 7036874417766400 <= Z.pos m2).
  { set (d := Zdigits2 M) in *.
    assert (HE : E = - (d - 7)) by lia.
    rewrite HE, Z.shiftl_div_pow2, Z.opp_involutive in Hv by lia.
    replace (d - 7) with ((d - 53) + 46) in Hv by lia.
    rewrite Z.pow_add_r, <- Z.div_div in Hv
      by (try apply Z.pow_pos_nonneg; lia).
    specialize (Hm2 ltac:(lia)).
    pose proof (Z.mul_div_le (M / 2 ^ (d - 53)) (2 ^ 46) ltac:(lia)).
    change (2 ^ 46) with 70368744177664 in *. lia. }
  rewrite Pos.compare_cont_spec. simpl.
  destruct (Pos.compare_spec 7036874417766400 m2) as [Hc | Hc | Hc];
    try reflexivity.
  apply Pos2Z.pos_lt_pos in Hc. exfalso. lia.
Qed.

Lemma SFleb_c100_value (m : positive) (e : Z) :
  valid_binary (S754_finite false m e) = true ->
  SFleb c100 (S754_finite false m e) = true ->
  100 <= Z.shiftl (Z.pos m) e.
Proof.
  intros Hv Hle. unfold SFleb, SFcompare, c100 in Hle.
  destruct (Z.compare_spec (-46) e) as [He | He | He]; try discriminate.
  - subst e. rewrite Pos.compare_cont_spec in Hle. simpl in Hle.
    rewrite Z.shiftl_div_pow2 by lia.
    apply Z.div_le_lower_bound; [reflexivity | ].
    destruct (Pos.compare_spec 7036874417766400 m) as [Hc | Hc | Hc];
      try discriminate.
    + subst m. reflexivity.
    + apply Pos2Z.pos_lt_pos in Hc.
      change (2 ^ (- -46) * 100) with 7036874417766400. lia.
  - pose proof (valid_binary_digits false m e Hv ltac:(lia)) as Hd.
    pose proof (Zdigits2_bounds (Z.pos m) ltac:(lia)) as [Hlo _].
    rewrite Hd in Hlo. change (2 ^ (53 - 1)) with 4503599627370496 in Hlo.
    destruct (Z_le_gt_dec 0 e) as [He0 | He0].
    + rewrite Z.shiftl_mul_pow2 by assumption.
      assert (0 < 2 ^ e) by (apply Z.pow_pos_nonneg; lia). nia.
    + rewrite Z.shiftl_div_pow2 by lia.
      assert (Hp : 2 ^ (- e) <= 2 ^ 45) by (apply Z.pow_le_mono_r; lia).
      assert (0 < 2 ^ (- e)) by (apply Z.pow_pos_nonneg; lia).
      apply Z.div_le_lower_bound; [assumption | ].
      change (2 ^ 45) with 35184372088832 in Hp. lia.
Qed.

Lemma SFmul_ge100 (x : spec_float) :
  valid_binary x = true -> SFleb ctenth x = true ->
  SFleb c100 (SFmul prec emax x c1000) = true.
Proof.
  destruct x as [ [ | ] | [ | ] | | [ | ] m e ]; try discriminate;
    intros Hv Hle; [reflexivity | ].
  unfold SFmul, c1000. simpl xorb.
  apply binary_round_aux_ge100; [lia | | ].
  - change 53 with (52 + 1). apply Zdigits2_lower; [lia | ].
    change (2 ^ 52) with 4503599627370496. lia.
  - unfold SFleb, SFcompare, ctenth in Hle.
    destruct (Z.compare_spec (-56) e) as [He | He | He]; try discriminate.
    + subst e. rewrite Pos.compare_cont_spec in Hle. simpl in Hle.
      assert (Hm : 7205759403792794 <= Z.pos m).
      { destruct (Pos.compare_spec 7205759403792794 m) as [Hc | Hc | Hc];
          try discriminate.
        - subst m. reflexivity.
        - apply Pos2Z.pos_lt_pos in Hc. lia. }
      simpl Z.add. rewrite Z.shiftl_div_pow2 by lia.
      apply Z.div_le_lower_bound; [reflexivity | ].
      change (2 ^ (- -99)) with 633825300114114700748351602688. lia.
    + pose proof (valid_binary_digits false m e Hv ltac:(lia)) as Hd.
      pose proof (Zdigits2_bounds (Z.pos m) ltac:(lia)) as [Hlo _].
      rewrite Hd in Hlo. change (2 ^ (53 - 1)) with 4503599627370496 in Hlo.
      destruct (Z_le_gt_dec 0 (e + -43)) as [He0 | He0].
      * rewrite Z.shiftl_mul_pow2 by assumption.
        assert (0 < 2 ^ (e + -43)) by (apply Z.pow_pos_nonneg; lia). nia.
      * rewrite Z.shiftl_div_pow2 by lia.
        assert (Hp : 2 ^ (- (e + -43)) <= 2 ^ 98)
          by (apply Z.pow_le_mono_r; lia).
        assert (0 < 2 ^ (- (e + -43))) by (apply Z.pow_pos_nonneg; lia).
        apply Z.div_le_lower_bound; [assumption | ].
        change (2 ^ 98) with 316912650057057350374175801344 in Hp. lia.
Qed.

Lemma shl_align_Z (m : positive) (e ez : Z) :
  ez <= e -> Z.pos (fst (shl_align m e ez)) = Z.shiftl (Z.pos m) (e - ez).
Proof.
  intros He. unfold shl_align.
  destruct (ez - e) as [ | k | k ] eqn:Hk; try lia; simpl fst.
  - replace (e - ez) with 0 by lia. reflexivity.
  - rewrite iter_xO_Z. replace (e - ez) with (Z.pos k) by lia.
    now rewrite Z.shiftl_mul_pow2 by lia.
Qed.

Lemma shl_align_fexp_spec (s : positive) (ez : Z) :
  7 <= Z.pos (digits2_pos s) + ez ->
  exists mz ez',
    shl_align s ez (fexp prec emax (Z.pos (digits2_pos s) + ez)) = (mz, ez') /\
    53 <= Zdigits2 (Z.pos mz) /\
    Z.shiftl (Z.pos mz) ez' = Z.shiftl (Z.pos s) ez.
Proof.
  intros H7. rewrite fexp_normal by lia.
  pose proof (digits2_pos_bounds s) as [Hlo Hhi].
  set (d := Z.pos (digits2_pos s)) in *.
  unfold shl_align.
  destruct (d + ez - 53 - ez) as [ | k | k ] eqn:Hk.
  - exists s, ez. repeat split. simpl. fold d. lia.
  - exists s, ez. repeat split. simpl. fold d. lia.
  - exists (Pos.iter xO s k), (d + ez - 53). split; [reflexivity | ].
    rewrite iter_xO_Z. split.
    + change 53 with (52 + 1). apply Zdigits2_lower; [lia | ].
      assert (E1 : 2 ^ 52 = 2 ^ (d - 1) * 2 ^ Z.pos k)
        by (rewrite <- Z.pow_add_r by lia; f_equal; lia).
      rewrite E1. apply Z.mul_le_mono_nonneg_r; [ | assumption].
      apply Z.pow_nonneg; lia.
    + rewrite <- Z.shiftl_mul_pow2 by lia.
      rewrite Z.shiftl_shiftl by lia. f_equal. lia.
Qed.

Lemma SFadd_ge100 (x y : spec_float) :
  sf_nonneg x = true -> valid_binary y = true -> SFleb c100 y = true ->
  SFleb c100 (SFadd prec emax x y) = true.
Proof.
  destruct x as [ [ | ] | [ | ] | | [ | ] mx ex ];
    destruct y as [ [ | ] | [ | ] | | [ | ] my ey ];
    try discriminate; intros _ Hv Hle; try exact Hle; try reflexivity.
  pose proof (SFleb_c100_value my ey Hv Hle) as Hy.
  unfold SFadd, cond_Zopp.
  set (ez := Z.min ex ey).
  set (ax := fst (shl_align mx ex ez)).
  set (ay := fst (shl_align my ey ez)).
  change (binary_normalize prec emax (Z.pos ax + Z.pos ay) ez false)
    with (binary_round prec emax false (ax + ay) ez).
  assert (Hs : 100 <= Z.shiftl (Z.pos (ax + ay)) ez).
  { apply Z.le_trans with (Z.shiftl (Z.pos ay) ez).
    - unfold ay. rewrite shl_align_Z by (unfold ez; lia).
      rewrite Z.shiftl_shiftl by (unfold ez; lia).
      replace (ey - ez + ez) with ey by lia. exact Hy.
    - apply shiftl_mono. lia. }
  pose proof (shiftl_ge100_digits (Z.pos (ax + ay)) ez (Pos2Z.is_pos _) Hs) as H7.
  simpl Zdigits2 in H7.
  destruct (shl_align_fexp_spec (ax + ay) ez H7) as (mz & ez' & Heq & Hd & Hval).
  unfold binary_round. rewrite Heq.
  apply binary_round_aux_ge100; [lia | assumption | ].
  rewrite Hval. exact Hs.
Qed.

(** ** Comparison *)

Lemma compare_cont_Eq_antisym (p q : positive) :
  Pos.compare_cont Eq q p = CompOpp (Pos.compare_cont Eq p q).
Proof. now rewrite Pos.compare_cont_antisym. Qed.

Lemma SFcompare_antisym (x y : spec_float) :
  SFcompare y x = option_map CompOpp (SFcompare x y).
Proof.
  destruct x as [ [ | ] | [ | ] | | [ | ] mx ex ];
    destruct y as [ [ | ] | [ | ] | | [ | ] my ey ];
    try reflexivity; unfold SFcompare; simpl option_map; f_equal;
    rewrite (Z.compare_antisym ex ey);
    destruct (ex ?= ey); simpl; try reflexivity;
    now rewrite (compare_cont_Eq_antisym mx my).
Qed.

Lemma SFcompare_refl (x : spec_float) :
  x <> S754_nan -> SFcompare x x = Some Eq.
Proof.
  destruct x as [ [ | ] | [ | ] | | [ | ] m e ]; try reflexivity;
    try congruence; intros _; unfold SFcompare;
    rewrite Z.compare_refl, Pos.compare_cont_refl; reflexivity.
Qed.

Lemma ltb_leb (x y : float) : (x <? y)%float = true -> (x <=? y)%float = true.
Proof.
  rewrite ltb_spec, leb_spec. unfold SFltb, SFleb.
  destruct (SFcompare (Prim2SF x) (Prim2SF y)) as [ [ | | ] | ];
    congruence.
Qed.

Lemma leb_not_ltb (x y : float) :
  (x <=? y)%float = true -> (y <? x)%float = false.
Proof.
  rewrite ltb_spec, leb_spec. unfold SFltb, SFleb.
  rewrite (SFcompare_antisym (Prim2SF x) (Prim2SF y)).
  destruct (SFcompare (Prim2SF x) (Prim2SF y)) as [ [ | | ] | ];
    simpl; congruence.
Qed.

Lemma sf_signed_not_nan (s : bool) (x : spec_float) :
  sf_signed s x = true -> x <> S754_nan.
Proof. destruct x; simpl; congruence. Qed.

Lemma not_nan_is_nan (x : float) :
  Prim2SF x <> S754_nan -> PrimFloat.is_nan x = false.
Proof.
  intros H. unfold PrimFloat.is_nan.
  rewrite eqb_spec. unfold SFeqb. now rewrite SFcompare_refl.
Qed.

Lemma nonneg_is_nan (x : float) : nonneg x -> PrimFloat.is_nan x = false.
Proof. intros H. apply not_nan_is_nan. exact (sf_signed_not_nan _ _ H). Qed.

(** Two numbers that are not NaN and neither of which is below the other
    compare equal. *)
Lemma not_ltb_leb (x y : float) :
  Prim2SF x <> S754_nan -> Prim2SF y <> S754_nan ->
  (y <? x)%float = false -> (x <=? y)%float = true.
Proof.
  intros Hx Hy. rewrite ltb_spec, leb_spec. unfold SFltb, SFleb.
  rewrite (SFcompare_antisym (Prim2SF x) (Prim2SF y)).
  destruct (SFcompare (Prim2SF x) (Prim2SF y)) as [ [ | | ] | ] eqn:Hc;
    simpl; try congruence.
  destruct (Prim2SF x), (Prim2SF y); simpl in Hc; congruence.
Qed.

(** ** Arithmetic on numbers that are not negative *)

Lemma nonneg_add (x y : float) : nonneg x -> nonneg y -> nonneg (x + y)%float.
Proof. unfold nonneg. rewrite add_spec. apply SFadd_nonneg. Qed.

Lemma nonneg_mul (x y : float) : nonneg x -> posfin y -> nonneg (x * y)%float.
Proof. unfold nonneg, posfin. rewrite mul_spec. apply SFmul_nonneg. Qed.

Lemma nonneg_div (x y : float) : nonneg x -> posfin y -> nonneg (x / y)%float.
Proof. unfold nonneg, posfin. rewrite div_spec. apply SFdiv_nonneg. Qed.

Lemma nonneg_abs_sub (x y : float) :
  finite x -> finite y -> nonneg (abs (x - y))%float.
Proof.
  unfold nonneg, finite. intros Hx Hy. rewrite abs_spec, sub_spec.
  apply SFabs_nonneg. now apply SFsub_finite_not_nan.
Qed.

Lemma abs_sub_diag (x : float) : finite x -> abs (x - x)%float = 0%float.
Proof.
  unfold finite. intros Hx. apply Prim2SF_inj.
  rewrite abs_spec, sub_spec. unfold SF64sub.
  now rewrite SFsub_diag.
Qed.

Lemma zero_div (y : float) : posfin y -> (0 / y)%float = 0%float.
Proof.
  unfold posfin. intros Hy. apply Prim2SF_inj. rewrite div_spec.
  change (Prim2SF 0) with (S754_zero false).
  destruct (Prim2SF y) as [ | | | [ | ] m e ]; try discriminate. reflexivity.
Qed.

Lemma of_int_nonneg (z : Z) : 0 <= z < 2 ^ 53 -> nonneg (Js.of_int z).
Proof.
  intros Hz. unfold nonneg.
  destruct (Z.eq_dec z 0) as [-> | Hnz]; [reflexivity | ].
  destruct (of_int_posfin z ltac:(lia)) as (m & e & Heq & _).
  now rewrite Heq.
Qed.

Lemma pixelCount_posfin (img : ImageData) :
  valid_image img -> posfin (pixelCount img).
Proof.
  intros (Hw & Hh & Hlen & Hsafe & _). unfold posfin, pixelCount.
  destruct (of_int_posfin (Z.of_nat (length (data img))) ltac:(nia))
    as (m & e & Heq & Hd & He).
  destruct (div_four_posfin _ m e Heq Hd ltac:(lia)) as (m' & e' & Heq').
  now rewrite Heq'.
Qed.

(** ** The byte range, exhaustively *)

Lemma forallb_zrange (f : Z -> bool) (n : nat) :
  forallb f (zrange n) = true ->
  forall z, 0 <= z < Z.of_nat n -> f z = true.
Proof.
  intros H z Hz. rewrite forallb_forall in H. apply H.
  unfold zrange. apply in_map_iff.
  exists (Z.to_nat z). split; [lia | ]. apply in_seq. lia.
Qed.

Lemma sum_exact_all : forallb sum_exact_row (zrange 256) = true.
Proof. vm_compute. reflexivity. Qed.

Lemma third_finite_all : forallb third_finite_row (zrange 511) = true.
Proof. vm_compute. reflexivity. Qed.

Lemma brightness_of_finite (r g b : Z) :
  0 <= r <= 255 -> 0 <= g <= 255 -> 0 <= b <= 255 ->
  finite (brightness_of r g b).
Proof.
  intros Hr Hg Hb. unfold finite, brightness_of.
  pose proof (forallb_zrange _ _ sum_exact_all r ltac:(lia)) as H1.
  pose proof (forallb_zrange _ _ H1 g ltac:(lia)) as H2.
  apply FloatAxioms.Leibniz.eqb_spec in H2. rewrite H2.
  pose proof (forallb_zrange _ _ third_finite_all (r + g) ltac:(lia)) as H3.
  exact (forallb_zrange _ _ H3 b ltac:(lia)).
Qed.

(** ** The loop as a scan over the brightness values *)

Lemma list_ind4 (P : list Z -> Prop) :
  (forall d, (length d < 4)%nat -> P d) ->
  (forall r g b a rest, P rest -> P (r :: g :: b :: a :: rest)) ->
  forall d, P d.
Proof.
  intros Hs Hc d.
  remember (length d) as n eqn:Hn. revert d Hn.
  induction n as [n IH] using lt_wf_ind. intros d Hn.
  destruct d as [ | r [ | g [ | b [ | a rest ] ] ] ];
    try (apply Hs; simpl; lia).
  apply Hc. apply (IH (length rest)); [subst n; simpl; lia | reflexivity].
Qed.

Lemma data_get_nat (d : list Z) (k : nat) :
  data_get d (Z.of_nat k) = byte_at d k.
Proof.
  unfold data_get, byte_at.
  destruct (Z.ltb_spec (Z.of_nat k) 0) as [H | H]; [lia | ].
  now rewrite Nat2Z.id.
Qed.

Lemma brightnessAt_nat (d : list Z) (p : nat) :
  brightnessAt d (4 * Z.of_nat p) =
  ((byte_at d (4 * p) + byte_at d (4 * p + 1) + byte_at d (4 * p + 2)) / 3)%float.
Proof.
  unfold brightnessAt.
  replace (4 * Z.of_nat p + 1) with (Z.of_nat (4 * p + 1)) by lia.
  replace (4 * Z.of_nat p + 2) with (Z.of_nat (4 * p + 2)) by lia.
  replace (4 * Z.of_nat p) with (Z.of_nat (4 * p)) by lia.
  now rewrite !data_get_nat.
Qed.

Lemma brightnessAt_brights (p : nat) :
  forall d, (p < length (brights d))%nat ->
  brightnessAt d (4 * Z.of_nat p) = nth p (brights d) nan.
Proof.
  intros d. rewrite brightnessAt_nat. revert d.
  induction p as [ | p IH]; intros d Hp;
    destruct d as [ | r [ | g [ | b [ | a rest ] ] ] ];
    simpl in Hp; try lia.
  - reflexivity.
  - simpl brights. simpl nth. rewrite <- IH by lia.
    replace (4 * S p)%nat with (S (S (S (S (4 * p))))) by lia.
    reflexivity.
Qed.

Lemma brights_length (N : nat) :
  forall d, length d = (4 * N)%nat -> length (brights d) = N.
Proof.
  induction N as [ | N IH]; intros d Hd.
  - destruct d; [reflexivity | discriminate].
  - destruct d as [ | r [ | g [ | b [ | a rest ] ] ] ]; simpl in Hd; try lia.
    simpl. f_equal. apply IH. lia.
Qed.

Lemma skipn_nth_cons {A : Type} (d : A) (a : nat) :
  forall l, (a < length l)%nat -> skipn a l = nth a l d :: skipn (S a) l.
Proof.
  induction a as [ | a IH]; intros [ | x l] Hl; simpl in Hl; try lia.
  - reflexivity.
  - simpl skipn at 1. simpl nth. rewrite (IH l) by lia. reflexivity.
Qed.

Lemma loop_body_skip (img : ImageData) (st : EdgeAcc) (a : nat) :
  0 <= width img -> (a <= Z.to_nat (width img))%nat ->
  loop_body img st (4 * Z.of_nat a) = st.
Proof.
  intros Hw Ha. unfold loop_body.
  rewrite Z.gtb_ltb.
  destruct (Z.ltb_spec (width img * 4) (4 * Z.of_nat a)) as [H | H];
    [lia | reflexivity].
Qed.

Lemma loop_body_step (img : ImageData) (st : EdgeAcc) (a : nat) :
  0 <= width img ->
  (Z.to_nat (width img) < a)%nat -> (a < length (brights (data img)))%nat ->
  loop_body img st (4 * Z.of_nat a) =
  step st (nth a (brights (data img)) nan)
          (nth (a - Z.to_nat (width img)) (brights (data img)) nan).
Proof.
  intros Hw Hlt Ha. unfold loop_body.
  rewrite Z.gtb_ltb.
  destruct (Z.ltb_spec (width img * 4) (4 * Z.of_nat a)) as [H | H]; [ | lia].
  replace (4 * Z.of_nat a - width img * 4)
    with (4 * Z.of_nat (a - Z.to_nat (width img))) by lia.
  rewrite !brightnessAt_brights by lia.
  reflexivity.
Qed.

Lemma fold_skip (img : ImageData) (l : list nat) (st : EdgeAcc) :
  0 <= width img ->
  (forall a, In a l -> (a <= Z.to_nat (width img))%nat) ->
  fold_left (loop_body img) (map (fun k => 4 * Z.of_nat k) l) st = st.
Proof.
  intros Hw. induction l as [ | a l IH]; intros Hl; [reflexivity | ].
  cbn [map fold_left].
  rewrite loop_body_skip by (try assumption; apply Hl; now left).
  apply IH. intros b Hb. apply Hl. now right.
Qed.

Lemma fold_scan (img : ImageData) (n : nat) :
  0 <= width img ->
  forall a st,
    (a + n = length (brights (data img)))%nat ->
    (Z.to_nat (width img) < a)%nat ->
    fold_left (loop_body img) (map (fun k => 4 * Z.of_nat k) (seq a n)) st =
    scan (skipn a (brights (data img)))
         (skipn (a - Z.to_nat (width img)) (brights (data img))) st.
Proof.
  intros Hw. induction n as [ | n IH]; intros a st Hn Hlt.
  - rewrite skipn_all2 by lia. reflexivity.
  - cbn [seq map fold_left].
    rewrite loop_body_step by (try assumption; lia).
    rewrite (skipn_nth_cons nan a) by lia.
    rewrite (skipn_nth_cons nan (a - Z.to_nat (width img))) by lia.
    simpl scan. rewrite IH by lia.
    replace (S a - Z.to_nat (width img))%nat
      with (S (a - Z.to_nat (width img))) by lia.
    reflexivity.
Qed.

(** The loop compares every pixel after the first of the second row with
    the pixel one row above it. *)
Lemma edge_pass_scan (img : ImageData) (N : nat) :
  0 <= width img -> length (data img) = (4 * N)%nat ->
  edge_pass img =
  scan (skipn (S (Z.to_nat (width img))) (brights (data img)))
       (skipn 1 (brights (data img))) acc0.
Proof.
  intros Hw Hlen. unfold edge_pass, loop_indices. rewrite Hlen.
  replace ((4 * N + 3) / 4)%nat with N
    by (apply Nat.div_unique with (r := 3%nat); lia).
  pose proof (brights_length N (data img) Hlen) as HN.
  fold acc0.
  destruct (Nat.le_gt_cases N (S (Z.to_nat (width img)))) as [Hle | Hgt].
  - rewrite fold_skip; [ | assumption | ].
    + rewrite skipn_all2 by lia. reflexivity.
    + intros a Ha. apply in_seq in Ha. lia.
  - replace N with (S (Z.to_nat (width img))
                    + (N - S (Z.to_nat (width img))))%nat at 1 by lia.
    rewrite seq_app, map_app, fold_left_app.
    rewrite (fold_skip img (seq 0 (S (Z.to_nat (width img)))))
      by (try assumption; intros a Ha; apply in_seq in Ha; lia).
    rewrite fold_scan by (try assumption; lia).
    replace (0 + S (Z.to_nat (width img)) - Z.to_nat (width img))%nat
      with 1%nat by lia.
    reflexivity.
Qed.

Lemma brights_skipn (k : nat) :
  forall d, brights (skipn (4 * k) d) = skipn k (brights d).
Proof.
  induction k as [ | k IH]; intros d; [reflexivity | ].
  replace (4 * S k)%nat with (S (S (S (S (4 * k))))) by lia.
  destruct d as [ | r [ | g [ | b [ | a rest ] ] ] ]; try reflexivity.
  simpl skipn at 1. rewrite IH. reflexivity.
Qed.

Lemma scan_bytes_scan (cur : list Z) :
  forall prev st, scan_bytes cur prev st = scan (brights cur) (brights prev) st.
Proof.
  induction cur as [cur Hshort | r g b a cur IH] using list_ind4; intros prev st.
  - destruct cur as [ | r [ | g [ | b [ | a rest ] ] ] ];
      simpl in Hshort; try lia; reflexivity.
  - destruct prev as [ | r' [ | g' [ | b' [ | a' prev ] ] ] ];
      try reflexivity.
    simpl. apply IH.
Qed.

Lemma edge_pass_scan_bytes (img : ImageData) (N : nat) :
  0 <= width img -> length (data img) = (4 * N)%nat ->
  edge_pass img =
  scan_bytes (skipn (4 * S (Z.to_nat (width img))) (data img))
             (skipn 4 (data img)) acc0.
Proof.
  intros Hw Hlen. rewrite scan_bytes_scan.
  rewrite brights_skipn.
  change (skipn 4 (data img)) with (skipn (4 * 1) (data img)).
  rewrite brights_skipn. now apply edge_pass_scan with (N := N).
Qed.

(** ** Invariants of the scan *)

Lemma Forall_skipn {A : Type} (P : A -> Prop) (n : nat) :
  forall l, Forall P l -> Forall P (skipn n l).
Proof.
  induction n as [ | n IH]; intros l Hl; [exact Hl | ].
  destruct Hl as [ | x l Hx Hl]; [constructor | ]. simpl. now apply IH.
Qed.

Lemma brights_finite (d : list Z) :
  Forall (fun v => 0 <= v <= 255) d -> Forall finite (brights d).
Proof.
  induction d as [d Hshort | r g b a d IH] using list_ind4; intros Hd.
  - destruct d as [ | r [ | g [ | b [ | a rest ] ] ] ];
      simpl in Hshort; try lia; constructor.
  - inversion Hd as [ | ? ? Hr Hd1]; subst.
    inversion Hd1 as [ | ? ? Hg Hd2]; subst.
    inversion Hd2 as [ | ? ? Hb Hd3]; subst.
    inversion Hd3 as [ | ? ? Ha Hd4]; subst.
    simpl. constructor; [now apply brightness_of_finite | now apply IH].
Qed.

Lemma scan_nonneg (cur : list float) :
  forall prev st,
    Forall finite cur -> Forall finite prev ->
    nonneg (totalContrast st) ->
    nonneg (totalContrast (scan cur prev st)).
Proof.
  induction cur as [ | c cur IH]; intros prev st Hc Hp Hst; [exact Hst | ].
  destruct prev as [ | p prev]; [exact Hst | ].
  inversion Hc; subst. inversion Hp; subst.
  simpl. apply IH; try assumption.
  simpl. apply nonneg_add; [assumption | now apply nonneg_abs_sub].
Qed.

Lemma scan_count (cur : list float) :
  forall prev st,
    edgeCount st <= edgeCount (scan cur prev st)
                 <= edgeCount st + Z.of_nat (length cur).
Proof.
  induction cur as [ | c cur IH]; intros prev st; [simpl; lia | ].
  destruct prev as [ | p prev]; [simpl; lia | ].
  simpl scan. specialize (IH prev (step st c p)).
  assert (Hs : edgeCount st <= edgeCount (step st c p) <= edgeCount st + 1).
  { unfold step. simpl. destruct (30 <? abs (c - p))%float; lia. }
  simpl length. lia.
Qed.

(** ** Well-formed images *)

Lemma valid_image_length (img : ImageData) :
  valid_image img ->
  exists N, length (data img) = (4 * N)%nat /\ (0 < N)%nat /\
            Z.of_nat N < 2 ^ 51.
Proof.
  intros (Hw & Hh & Hlen & Hsafe & _).
  exists (Z.to_nat (width img * height img)).
  change (2 ^ 53) with (4 * 2 ^ 51) in Hsafe.
  repeat split; nia.
Qed.

Lemma totalContrast_nonneg (img : ImageData) :
  valid_image img -> nonneg (totalContrast (edge_pass img)).
Proof.
  intros Hv. destruct (valid_image_length img Hv) as (N & HN & _).
  destruct Hv as (Hw & _ & _ & _ & Hb).
  rewrite (edge_pass_scan img N ltac:(lia) HN).
  apply scan_nonneg; try (apply Forall_skipn; now apply brights_finite).
  reflexivity.
Qed.

Lemma edgeCount_bounds (img : ImageData) :
  valid_image img -> 0 <= edgeCount (edge_pass img) < 2 ^ 53.
Proof.
  intros Hv. destruct (valid_image_length img Hv) as (N & HN & HN0 & HN1).
  destruct Hv as (Hw & _ & _ & _ & Hb).
  rewrite (edge_pass_scan img N ltac:(lia) HN).
  pose proof (scan_count
                (skipn (S (Z.to_nat (width img))) (brights (data img)))
                (skipn 1 (brights (data img))) acc0) as Hc.
  rewrite length_skipn, (brights_length N _ HN) in Hc.
  change (edgeCount acc0) with 0 in Hc.
  change (2 ^ 53) with (4 * 2 ^ 51). lia.
Qed.

Lemma avgContrast_nonneg (img : ImageData) :
  valid_image img -> nonneg (avgContrast img).
Proof.
  intros Hv. unfold avgContrast.
  apply nonneg_div; [now apply totalContrast_nonneg | now apply pixelCount_posfin].
Qed.

Lemma edgeDensity_nonneg (img : ImageData) :
  valid_image img -> nonneg (edgeDensity img).
Proof.
  intros Hv. unfold edgeDensity.
  apply nonneg_div; [ | now apply pixelCount_posfin].
  apply of_int_nonneg. now apply edgeCount_bounds.
Qed.

(** ** The clamp *)

Lemma score_nonneg (avg dens : float) :
  nonneg avg -> nonneg dens ->
  nonneg ((avg / 30) * 100 + dens * 1000)%float.
Proof.
  intros Ha Hd. apply nonneg_add.
  - apply nonneg_mul; [ | reflexivity]. apply nonneg_div; [assumption | reflexivity].
  - apply nonneg_mul; [assumption | reflexivity].
Qed.

Lemma clamp_bounds (x : float) :
  nonneg x ->
  (60 <=? Js.math_min 100 (Js.math_max 60 x))%float = true /\
  (Js.math_min 100 (Js.math_max 60 x) <=? 100)%float = true.
Proof.
  intros Hx. pose proof (nonneg_is_nan x Hx) as Hnan.
  assert (Hmax : Js.math_max 60 x = 60%float \/
                 (Js.math_max 60 x = x /\ (60 <? x)%float = true)).
  { unfold Js.math_max. rewrite Hnan.
    change (PrimFloat.is_nan 60) with false. simpl orb.
    destruct (60 <? x)%float; [right; split; reflexivity | left].
    destruct (x <? 60)%float; reflexivity. }
  destruct Hmax as [-> | [-> H60]]; [split; reflexivity | ].
  unfold Js.math_min. rewrite Hnan.
  change (PrimFloat.is_nan 100) with false. simpl orb.
  destruct (100 <? x)%float; [split; reflexivity | ].
  destruct (x <? 100)%float eqn:H100.
  - split; now apply ltb_leb.
  - split; reflexivity.
Qed.

Lemma SFleb_c100_ltb_c60 (x : spec_float) :
  SFleb c100 x = true -> SFltb c60 x = true.
Proof.
  destruct x as [ [ | ] | [ | ] | | [ | ] m e ]; try discriminate;
    try reflexivity.
  unfold SFleb, SFltb, SFcompare, c100, c60.
  destruct (Z.compare_spec (-46) e) as [H | H | H]; try discriminate;
    intros _; destruct (Z.compare_spec (-47) e) as [H' | H' | H'];
    try reflexivity; exfalso; lia.
Qed.

Lemma SFleb_c100_not_nan (x : spec_float) :
  SFleb c100 x = true -> x <> S754_nan.
Proof. intros H ->. discriminate. Qed.

Lemma clamp_top (x : float) :
  (100 <=? x)%float = true -> Js.math_min 100 (Js.math_max 60 x) = 100%float.
Proof.
  intros Hx.
  pose proof Hx as Hs. rewrite leb_spec in Hs.
  change (Prim2SF 100) with c100 in Hs.
  pose proof (not_nan_is_nan x (SFleb_c100_not_nan _ Hs)) as Hnan.
  assert (H60 : (60 <? x)%float = true).
  { rewrite ltb_spec. change (Prim2SF 60) with c60.
    now apply SFleb_c100_ltb_c60. }
  unfold Js.math_max. rewrite Hnan, H60.
  change (PrimFloat.is_nan 60) with false. simpl orb. cbv iota.
  unfold Js.math_min. rewrite Hnan, (leb_not_ltb _ _ Hx).
  change (PrimFloat.is_nan 100) with false. simpl orb. cbv iota.
  destruct (100 <? x)%float; reflexivity.
Qed.

Lemma score_ge_100 (avg dens : float) :
  nonneg avg -> (Js.tenth <=? dens)%float = true ->
  (100 <=? (avg / 30) * 100 + dens * 1000)%float = true.
Proof.
  intros Ha Hd.
  rewrite leb_spec in Hd. change (Prim2SF Js.tenth) with ctenth in Hd.
  rewrite leb_spec, add_spec.
  change (Prim2SF 100) with c100.
  apply SFadd_ge100.
  - assert (Hb : nonneg ((avg / 30) * 100)%float).
    { apply nonneg_mul; [ | reflexivity].
      apply nonneg_div; [assumption | reflexivity]. }
    exact Hb.
  - apply Prim2SF_valid.
  - rewrite mul_spec. change (Prim2SF 1000) with c1000.
    apply SFmul_ge100; [apply Prim2SF_valid | assumption].
Qed.

(** ** Solid-colour images *)

Lemma brights_colours (d : list Z) :
  brights d = map colour_brightness (colours d).
Proof.
  induction d as [d Hshort | r g b a d IH] using list_ind4.
  - destruct d as [ | r [ | g [ | b [ | a rest ] ] ] ];
      simpl in Hshort; try lia; reflexivity.
  - simpl. now rewrite IH.
Qed.

Lemma uniform_brights (img : ImageData) :
  uniform img -> Forall (fun v => 0 <= v <= 255) (data img) ->
  exists bv, finite bv /\ Forall (eq bv) (brights (data img)).
Proof.
  intros Hu Hb. pose proof (brights_finite _ Hb) as Hf.
  rewrite brights_colours in *. unfold uniform in Hu.
  destruct (colours (data img)) as [ | c0 cs].
  - exists 0%float. split; [reflexivity | constructor].
  - exists (colour_brightness c0). split.
    + now inversion Hf.
    + apply Forall_forall. intros x Hx. apply in_map_iff in Hx.
      destruct Hx as (c & <- & Hc). f_equal.
      apply Hu; [now left | exact Hc].
Qed.

Lemma scan_uniform (bv : float) (cur : list float) :
  finite bv ->
  forall prev, Forall (eq bv) cur -> Forall (eq bv) prev ->
  scan cur prev acc0 = acc0.
Proof.
  intros Hbv. induction cur as [ | c cur IH]; intros prev Hc Hp;
    [reflexivity | ].
  destruct prev as [ | p prev]; [reflexivity | ].
  rewrite <- (Forall_inv Hc), <- (Forall_inv Hp).
  simpl scan.
  assert (Hs : step acc0 bv bv = acc0).
  { unfold step. rewrite abs_sub_diag by assumption. reflexivity. }
  rewrite Hs. apply IH; eapply Forall_inv_tail; eassumption.
Qed.

Lemma edge_pass_uniform (img : ImageData) :
  valid_image img -> uniform img -> edge_pass img = acc0.
Proof.
  intros Hv Hu. destruct (valid_image_length img Hv) as (N & HN & _).
  destruct Hv as (Hw & _ & _ & _ & Hb).
  rewrite (edge_pass_scan img N ltac:(lia) HN).
  destruct (uniform_brights img Hu Hb) as (bv & Hbv & Hall).
  apply (scan_uniform bv); try assumption; now apply Forall_skipn.
Qed.

Lemma div_self (x : float) (m : positive) (e : Z) :
  Prim2SF x = S754_finite false m e -> Zdigits2 (Z.pos m) = 53 ->
  (x / x)%float = 1%float.
Proof.
  intros Hx Hd. apply Prim2SF_inj.
  rewrite div_spec, Hx.
  unfold SF64div, SFdiv, SFdiv_core_binary. rewrite Hd.
  replace (53 + e - (53 + e)) with 0 by lia.
  replace (e - e) with 0 by lia.
  change (Z.min (fexp prec emax 0) 0) with (-53).
  change (0 - -53) with 53.
  rewrite Z.shiftl_mul_pow2 by lia.
  pose proof (Z.div_mul (2 ^ 53) (Z.pos m) ltac:(lia)) as Hq.
  pose proof (Z.mod_mul (2 ^ 53) (Z.pos m) ltac:(lia)) as Hr.
  unfold Z.div in Hq. unfold Z.modulo in Hr.
  rewrite (Z.mul_comm (Z.pos m)).
  destruct (Z.div_eucl (2 ^ 53 * Z.pos m) (Z.pos m)) as [q r].
  subst q r.
  assert (Hl : new_location (Z.pos m) 0 = loc_Exact).
  { unfold new_location, new_location_even, new_location_odd.
    destruct (Z.even (Z.pos m)); reflexivity. }
  rewrite Hl. reflexivity.
Qed.

Lemma aspectRatio_square (img : ImageData) :
  valid_image img -> width img = height img -> aspectRatio img = 1%float.
Proof.
  intros (Hw & Hh & Hlen & Hsafe & _) Heq. unfold aspectRatio.
  rewrite <- Heq.
  destruct (of_int_posfin (width img) ltac:(nia)) as (m & e & Hx & Hd & _).
  exact (div_self _ m e Hx Hd).
Qed.

(** ** The solid and striped images *)

Lemma solid_data_length (n : nat) (v : Z) :
  length (concat (repeat [v; v; v; 255] n)) = (4 * n)%nat.
Proof. induction n as [ | n IH]; simpl; [reflexivity | rewrite IH; lia]. Qed.

Lemma solid_data_bytes (n : nat) (v : Z) :
  0 <= v <= 255 ->
  Forall (fun x => 0 <= x <= 255) (concat (repeat [v; v; v; 255] n)).
Proof.
  intros Hv. induction n as [ | n IH]; simpl; [constructor | ].
  repeat (constructor; [lia | ]). exact IH.
Qed.

Lemma solid_colours (n : nat) (v : Z) :
  colours (concat (repeat [v; v; v; 255] n)) = repeat (v, v, v) n.
Proof. induction n as [ | n IH]; simpl; [reflexivity | now rewrite IH]. Qed.

Lemma solid_valid (w h : nat) (v : Z) :
  (0 < w)%nat -> (0 < h)%nat -> 0 <= v <= 255 ->
  4 * Z.of_nat w * Z.of_nat h < 2 ^ 53 ->
  valid_image (solid w h v).
Proof.
  intros Hw Hh Hv Hs. unfold valid_image, solid. cbn [width height data].
  rewrite solid_data_length.
  split; [lia | ]. split; [lia | ]. split; [lia | ]. split; [lia | ].
  now apply solid_data_bytes.
Qed.

Lemma solid_uniform (w h : nat) (v : Z) : uniform (solid w h v).
Proof.
  unfold uniform, solid. cbn [data]. rewrite solid_colours.
  intros p q Hp Hq.
  apply repeat_spec in Hp. apply repeat_spec in Hq. congruence.
Qed.

Lemma pixel_row_length (w : nat) (v : Z) :
  length (pixel_row w v) = (4 * w)%nat.
Proof. apply solid_data_length. Qed.

Lemma striped_rows_length (w h : nat) :
  forall v, length (striped_rows w h v) = (4 * (w * h))%nat.
Proof.
  induction h as [ | h IH]; intros v; simpl; [lia | ].
  rewrite length_app, pixel_row_length, IH. lia.
Qed.

Lemma striped_edge_pass (top_white : bool) :
  edge_pass (striped top_white) =
  {| totalContrast := 16646145; edgeCount := 65279 |}.
Proof.
  rewrite (edge_pass_scan_bytes (striped top_white) (256 * 256));
    [ | cbn [width striped]; lia | apply striped_rows_length].
  destruct top_white; vm_compute; reflexivity.
Qed.

Lemma striped_pixelCount (top_white : bool) :
  pixelCount (striped top_white) = 65536%float.
Proof.
  unfold pixelCount, striped. cbn [data].
  rewrite striped_rows_length.
  replace (Z.of_nat (4 * (256 * 256))) with 262144 by lia.
  reflexivity.
Qed.
(** ** Results on the issue and recommendation lists *)

Lemma run_checks_eq (img : ImageData) :
  run_checks img =
  (when (low_resolution img) issue_resolution
     ++ when (odd_aspect img) issue_aspect
     ++ when (low_contrast img) issue_contrast,
   when (low_resolution img) rec_resolution
     ++ when (odd_aspect img) rec_aspect
     ++ when (low_contrast img) rec_contrast
     ++ when (few_edges img) rec_features).
Proof.
  unfold run_checks, check, push, when.
  destruct (low_resolution img), (odd_aspect img), (low_contrast img),
    (few_edges img); reflexivity.
Qed.

Lemma issues_eq (img : ImageData) :
  issues (validate img) =
  when (low_resolution img) issue_resolution
    ++ when (odd_aspect img) issue_aspect
    ++ when (low_contrast img) issue_contrast.
Proof. unfold validate; simpl; now rewrite run_checks_eq. Qed.

Lemma recommendations_eq (img : ImageData) :
  recommendations (validate img) =
  when (low_resolution img) rec_resolution
    ++ when (odd_aspect img) rec_aspect
    ++ when (low_contrast img) rec_contrast
    ++ when (few_edges img) rec_features.
Proof. unfold validate; simpl; now rewrite run_checks_eq. Qed.

Lemma low_resolution_iff (img : ImageData) :
  low_resolution img = true <-> width img < 256 \/ height img < 256.
Proof.
  unfold low_resolution.
  rewrite orb_true_iff, !Z.ltb_lt; reflexivity.
Qed.



(** ** Subsequences *)

Lemma subseq_In {A : Type} (xs ys : list A) (x : A) :
  subseq xs ys -> In x xs -> In x ys.
Proof.
  induction 1 as [ | y xs ys _ IH | y xs ys _ IH]; intros Hx.
  - exact Hx.
  - right. now apply IH.
  - destruct Hx as [-> | Hx]; [now left | right; now apply IH].
Qed.

Lemma subseq_NoDup {A : Type} (xs ys : list A) :
  subseq xs ys -> NoDup ys -> NoDup xs.
Proof.
  induction 1 as [ | y xs ys Hs IH | y xs ys Hs IH]; intros Hn.
  - constructor.
  - apply IH. now inversion Hn.
  - inversion Hn as [ | ? ? Hy Hn']; subst. constructor; [ | now apply IH].
    intros Hin. apply Hy. now apply (subseq_In xs ys).
Qed.

Lemma subseq_when {A : Type} (c : bool) (x : A) (xs ys : list A) :
  subseq xs ys -> subseq (when c x ++ xs) (x :: ys).
Proof. intros H. destruct c; simpl; now constructor. Qed.

Lemma NoDup_all_issues : NoDup all_issues.
Proof.
  unfold all_issues, issue_resolution, issue_aspect, issue_contrast.
  constructor; [intros [H | [H | []]]; discriminate H | ].
  constructor; [intros [H | []]; discriminate H | ].
  constructor; [intros [] | constructor].
Qed.

(** C10: the issues are a duplicate-free subsequence of the three known
    issues, the recommendations a subsequence of the four known
    recommendations, there are at least as many recommendations as issues,
    and an image with an issue has a recommendation. *)
Theorem lists_are_subsequences (img : ImageData) :
  subseq (issues (validate img)) all_issues /\
  NoDup (issues (validate img)) /\
  subseq (recommendations (validate img)) all_recommendations /\
  (length (issues (validate img))
     <= length (recommendations (validate img)))%nat /\
  (issues (validate img) <> [] -> recommendations (validate img) <> []).
Proof.
  assert (Hi : subseq (issues (validate img)) all_issues).
  { rewrite issues_eq. unfold all_issues.
    do 2 apply subseq_when.
    rewrite <- (app_nil_r (when _ _)). apply subseq_when. constructor. }
  assert (Hr : subseq (recommendations (validate img)) all_recommendations).
  { rewrite recommendations_eq. unfold all_recommendations.
    do 3 apply subseq_when.
    rewrite <- (app_nil_r (when _ _)). apply subseq_when. constructor. }
  assert (Hlen : (length (issues (validate img))
                    <= length (recommendations (validate img)))%nat).
  { rewrite issues_eq, recommendations_eq. unfold when.
    destruct (low_resolution img), (odd_aspect img), (low_contrast img),
      (few_edges img); cbn [app length]; lia. }
  split; [exact Hi | ].
  split; [exact (subseq_NoDup _ _ Hi NoDup_all_issues) | ].
  split; [exact Hr | ].
  split; [exact Hlen | ].
  intros Hne Hnil. rewrite Hnil in Hlen.
  destruct (issues (validate img)); [now apply Hne | simpl in Hlen; lia].
Qed.

(** ** The score *)

Lemma valid_black_over_white : valid_image black_over_white.
Proof.
  unfold valid_image, black_over_white; cbn [width height data length].
  repeat split; try lia. repeat constructor; lia.
Defined.

Lemma valid_black_above_white_pixel : valid_image black_above_white_pixel.
Proof.
  unfold valid_image, black_above_white_pixel; cbn [width height data length].
  repeat split; try lia. repeat constructor; lia.
Defined.



(** C9: an image whose edge density is at least 0.1 scores exactly 100;
    hence a score below 100 comes with the recommendation to add
    features. *)
Theorem dense_edges_score_100 (img : ImageData) :
  valid_image img ->
  ((Js.tenth <=? edgeDensity img)%float = true ->
   quality (validate img) = 100%float) /\
  ((quality (validate img) <? 100)%float = true ->
   In rec_features (recommendations (validate img))).
Proof.
  intros Hv.
  assert (Htop : (Js.tenth <=? edgeDensity img)%float = true ->
                 quality (validate img) = 100%float).
  { intros Hd. unfold validate, quality_of. cbn [quality].
    apply clamp_top. apply score_ge_100; [ | exact Hd].
    now apply avgContrast_nonneg. }
  split; [exact Htop | ].
  intros Hq.
  assert (Hfew : few_edges img = true).
  { unfold few_edges.
    destruct (edgeDensity img <? Js.tenth)%float eqn:Hlt; [reflexivity | ].
    exfalso.
    assert (Hge : (Js.tenth <=? edgeDensity img)%float = true).
    { apply not_ltb_leb; [discriminate | | exact Hlt].
      exact (sf_signed_not_nan _ _ (edgeDensity_nonneg img Hv)). }
    rewrite (Htop Hge) in Hq. discriminate. }
  rewrite recommendations_eq, Hfew. decide_in.
Qed.

Lemma dense_edges_score_100_witness :
  quality (validate black_over_white) = 100%float /\
  In rec_features (recommendations (validate black_above_white_pixel)).
Proof.
  split.
  - apply (dense_edges_score_100 black_over_white valid_black_over_white).
    reflexivity.
  - apply (dense_edges_score_100 black_above_white_pixel
             valid_black_above_white_pixel).
    reflexivity.
Defined.

(** C6: a solid-colour square image of side at least 256 has average
    contrast 0 and edge density 0; its only issue is the low contrast, and
    its quality is exactly 60. *)
Theorem uniform_image_scores_60 (img : ImageData) :
  valid_image img -> width img = height img -> 256 <= width img ->
  uniform img ->
  avgContrast img = 0%float /\
  edgeDensity img = 0%float /\
  In issue_contrast (issues (validate img)) /\
  issues (validate img) = [issue_contrast] /\
  quality (validate img) = 60%float.
Proof.
  intros Hv Hsq Hbig Hu.
  pose proof (edge_pass_uniform img Hv Hu) as Hep.
  pose proof (pixelCount_posfin img Hv) as Hpc.
  assert (Ha : avgContrast img = 0%float).
  { unfold avgContrast. rewrite Hep. now apply zero_div. }
  assert (Hd : edgeDensity img = 0%float).
  { unfold edgeDensity. rewrite Hep. now apply zero_div. }
  assert (Hi : issues (validate img) = [issue_contrast]).
  { rewrite issues_eq.
    assert (Hres : low_resolution img = false).
    { unfold low_resolution. apply orb_false_iff.
      split; apply Z.ltb_ge; lia. }
    assert (Hasp : odd_aspect img = false).
    { unfold odd_aspect. now rewrite (aspectRatio_square img Hv Hsq). }
    assert (Hcon : low_contrast img = true).
    { unfold low_contrast. now rewrite Ha. }
    rewrite Hres, Hasp, Hcon. reflexivity. }
  repeat split; try assumption.
  - rewrite Hi. now left.
  - unfold validate. cbn [quality]. rewrite Ha, Hd. reflexivity.
Qed.

Lemma uniform_image_scores_60_witness :
  avgContrast (solid 256 256 128) = 0%float /\
  edgeDensity (solid 256 256 128) = 0%float /\
  In issue_contrast (issues (validate (solid 256 256 128))) /\
  issues (validate (solid 256 256 128)) = [issue_contrast] /\
  quality (validate (solid 256 256 128)) = 60%float.
Proof.
  apply (uniform_image_scores_60 (solid 256 256 128)).
  - apply solid_valid; lia.
  - reflexivity.
  - cbn [width solid]. lia.
  - apply solid_uniform.
Defined.

(** C7: the 256x256 image whose rows alternate between black and white
    (either colour on top) has average contrast at least 15, a positive edge
    count, and none of the three issues. *)
Theorem striped_image_has_no_issue (top_white : bool) :
  (15 <=? avgContrast (striped top_white))%float = true /\
  (avgContrast (striped top_white) <? 15)%float = false /\
  0 < edgeCount (edge_pass (striped top_white)) /\
  ~ In issue_contrast (issues (validate (striped top_white))) /\
  ~ In issue_resolution (issues (validate (striped top_white))) /\
  aspectRatio (striped top_white) = 1%float /\
  ~ In issue_aspect (issues (validate (striped top_white))) /\
  issues (validate (striped top_white)) = [].
Proof.
  pose proof (striped_edge_pass top_white) as Hep.
  pose proof (striped_pixelCount top_white) as Hpc.
  assert (Ha : (15 <=? avgContrast (striped top_white))%float = true).
  { unfold avgContrast. rewrite Hep, Hpc. reflexivity. }
  assert (Hi : issues (validate (striped top_white)) = []).
  { rewrite issues_eq.
    assert (Hcon : low_contrast (striped top_white) = false).
    { unfold low_contrast. now apply leb_not_ltb. }
    rewrite Hcon. reflexivity. }
  split; [exact Ha | ].
  split; [now apply leb_not_ltb | ].
  split; [rewrite Hep; reflexivity | ].
  rewrite Hi. repeat split; auto.
Qed.

(** ** The edge pass at the start of the second row *)

(** C2: on the 2x2 image with a black row above a white row the loop
    compares only the last pixel with the one above it: the pixel at index
    [W], the first of the second row, is left out, although the pixel above
    it exists; the pass as specified compares both. *)
Theorem second_row_first_pixel_skipped :
  edge_pass black_over_white = {| totalContrast := 255; edgeCount := 1 |} /\
  spec_edge_pass black_over_white = {| totalContrast := 510; edgeCount := 2 |} /\
  avgContrast black_over_white = 63.75%float /\
  edgeDensity black_over_white = 0.25%float /\
  (forall (img : ImageData) (st : EdgeAcc),
      loop_body img st (width img * 4) = st) /\
  (forall (img : ImageData) (st : EdgeAcc),
      spec_loop_body img st (width img * 4) =
      step st (brightnessAt (data img) (width img * 4))
              (brightnessAt (data img) 0)).
Proof.
  repeat split; try reflexivity.
  - intros img st. unfold loop_body.
    now rewrite Z.gtb_ltb, Z.ltb_irrefl.
  - intros img st. unfold spec_loop_body.
    rewrite Z.geb_leb, Z.leb_refl, Z.sub_diag. reflexivity.
Qed.

(** ** The promise *)

(** C3, as the claim states it, fails: when the image cannot be decoded the
    returned promise is not rejected. *)
Lemma decode_failure_is_not_rejected :
  ~ exists reason, validateMarkerImage EvError = Rejected reason.
Proof. intros [reason H]. discriminate H. Qed.

(** C3 (amended): when the image cannot be decoded no handler runs, so the
    promise stays pending: no error reaches the caller and no result,
    partial or complete, is produced.  Every image that is decoded yields
    its complete result, and the promise is never rejected. *)
Theorem decode_failure_leaves_promise_pending :
  validateMarkerImage EvError = Pending /\
  (forall p, fire handlers EvError p = p) /\
  (forall img, validateMarkerImage (EvLoad img) = Fulfilled (validate img)) /\
  (forall ev reason, validateMarkerImage ev <> Rejected reason).
Proof.
  split; [reflexivity | ]. split; [reflexivity | ]. split; [reflexivity | ].
  intros [img | ] reason; discriminate.
Qed.


(** * Further properties of the heuristic *)

(** ** What the result depends on *)

Lemma validate_ext (img1 img2 : ImageData) :
  width img1 = width img2 -> height img1 = height img2 ->
  length (data img1) = length (data img2) ->
  edge_pass img1 = edge_pass img2 ->
  validate img1 = validate img2.
Proof.
  intros Hw Hh Hl He.
  assert (Hp : pixelCount img1 = pixelCount img2)
    by (unfold pixelCount; now rewrite Hl).
  assert (Ha : avgContrast img1 = avgContrast img2)
    by (unfold avgContrast; now rewrite He, Hp).
  assert (Hd : edgeDensity img1 = edgeDensity img2)
    by (unfold edgeDensity; now rewrite He, Hp).
  unfold validate, run_checks, low_resolution, odd_aspect, low_contrast,
    few_edges, aspectRatio.
  now rewrite Hw, Hh, Ha, Hd.
Qed.

Lemma edge_pass_brights (img1 img2 : ImageData) (N : nat) :
  0 <= width img1 -> width img1 = width img2 ->
  length (data img1) = (4 * N)%nat -> length (data img2) = (4 * N)%nat ->
  brights (data img1) = brights (data img2) ->
  edge_pass img1 = edge_pass img2.
Proof.
  intros Hw Heq H1 H2 Hb.
  rewrite (edge_pass_scan img1 N Hw H1).
  rewrite (edge_pass_scan img2 N ltac:(lia) H2).
  now rewrite Hb, Heq.
Qed.

(** The alpha bytes are never read: two pixel arrays of the same length
    that agree on the three colour bytes of every pixel give the same
    result. *)
Theorem alpha_is_ignored (img1 img2 : ImageData) (N : nat) :
  0 <= width img1 ->
  width img1 = width img2 -> height img1 = height img2 ->
  length (data img1) = (4 * N)%nat -> length (data img2) = (4 * N)%nat ->
  colours (data img1) = colours (data img2) ->
  validate img1 = validate img2.
Proof.
  intros Hw Hweq Hheq H1 H2 Hc.
  apply validate_ext; try assumption; [congruence | ].
  apply (edge_pass_brights img1 img2 N); try assumption.
  now rewrite !brights_colours, Hc.
Qed.

Lemma alpha_is_ignored_witness :
  validate black_over_white =
  validate (mkImageData 2 2 [0; 0; 0; 0;  0; 0; 0; 17;
                             255; 255; 255; 128;  255; 255; 255; 0]).
Proof.
  apply (alpha_is_ignored black_over_white
           (mkImageData 2 2 [0; 0; 0; 0;  0; 0; 0; 17;
                             255; 255; 255; 128;  255; 255; 255; 0]) 4);
    try reflexivity.
  cbn [width black_over_white]. lia.
Defined.

Lemma sum_exact_wide : forallb sum_exact_row (zrange 511) = true.
Proof. vm_compute. reflexivity. Qed.

Lemma brightness_of_sum (r g b : Z) :
  0 <= r <= 255 -> 0 <= g <= 255 -> 0 <= b <= 255 ->
  brightness_of r g b = (Js.of_int (r + g + b) / 3)%float.
Proof.
  intros Hr Hg Hb. unfold brightness_of.
  pose proof (forallb_zrange _ _ sum_exact_all r ltac:(lia)) as H1.
  pose proof (forallb_zrange _ _ H1 g ltac:(lia)) as H2.
  apply FloatAxioms.Leibniz.eqb_spec in H2. rewrite H2.
  pose proof (forallb_zrange _ _ sum_exact_wide (r + g) ltac:(lia)) as H3.
  pose proof (forallb_zrange _ _ H3 b ltac:(lia)) as H4.
  apply FloatAxioms.Leibniz.eqb_spec in H4. now rewrite H4.
Qed.

Lemma brights_sums (d : list Z) :
  Forall (fun v => 0 <= v <= 255) d ->
  brights d = map (fun s => (Js.of_int s / 3)%float)
                  (map colour_sum (colours d)).
Proof.
  induction d as [d Hshort | r g b a d IH] using list_ind4; intros Hd.
  - destruct d as [ | r [ | g [ | b [ | a rest ] ] ] ];
      simpl in Hshort; try lia; reflexivity.
  - inversion Hd as [ | ? ? Hr Hd1]; subst.
    inversion Hd1 as [ | ? ? Hg Hd2]; subst.
    inversion Hd2 as [ | ? ? Hb Hd3]; subst.
    inversion Hd3 as [ | ? ? Ha Hd4]; subst.
    cbn [brights colours map colour_sum].
    now rewrite brightness_of_sum, IH.
Qed.

(** Only the sum of the three colour bytes of each pixel matters: two
    decoded images of the same size whose pixels have the same sums (for
    example after exchanging colour channels) give the same result. *)
Theorem only_channel_sums_matter (img1 img2 : ImageData) :
  valid_image img1 -> valid_image img2 ->
  width img1 = width img2 -> height img1 = height img2 ->
  map colour_sum (colours (data img1)) = map colour_sum (colours (data img2)) ->
  validate img1 = validate img2.
Proof.
  intros Hv1 Hv2 Hw Hh Hs.
  destruct (valid_image_length img1 Hv1) as (N & HN1 & _).
  destruct Hv1 as (Hw1 & _ & Hl1 & _ & Hb1).
  destruct Hv2 as (_ & _ & Hl2 & _ & Hb2).
  assert (Hlen : length (data img1) = length (data img2)) by nia.
  apply validate_ext; try assumption.
  apply (edge_pass_brights img1 img2 N); try assumption; try lia.
  now rewrite (brights_sums _ Hb1), (brights_sums _ Hb2), Hs.
Qed.

Lemma only_channel_sums_matter_witness :
  (valid_image channels_rgb /\ valid_image channels_mixed)
  /\ data channels_rgb <> data channels_mixed
  /\ edgeCount (edge_pass channels_rgb) = 3
  /\ validate channels_rgb = validate channels_mixed.
Proof.
  assert (H1 : valid_image channels_rgb).
  { unfold valid_image, channels_rgb; cbn [width height data length].
    repeat split; try lia. repeat constructor; lia. }
  assert (H2 : valid_image channels_mixed).
  { unfold valid_image, channels_mixed; cbn [width height data length].
    repeat split; try lia. repeat constructor; lia. }
  split; [split; assumption | ].
  split; [discriminate | ].
  split; [reflexivity | ].
  apply (only_channel_sums_matter channels_rgb channels_mixed H1 H2);
    reflexivity.
Defined.

(** ** The badge *)

(** For a decoded image the badge is never red: text and bar are both green
    or both yellow, and green whenever the edge density is at least 0.1. *)
Theorem badge_is_never_red (img : ImageData) :
  valid_image img ->
  qualityTextClass (quality (validate img)) <> "text-red-600"%string /\
  qualityBarClass (quality (validate img)) <> "bg-red-500"%string /\
  ((Js.tenth <=? edgeDensity img)%float = true ->
   qualityTextClass (quality (validate img)) = "text-green-600"%string /\
   qualityBarClass (quality (validate img)) = "bg-green-500"%string).
Proof.
  intros Hv.
  pose proof (score_nonneg _ _ (avgContrast_nonneg img Hv)
                (edgeDensity_nonneg img Hv)) as Hs.
  destruct (clamp_bounds _ Hs) as [Hlo _].
  unfold validate, quality_of. cbn [quality].
  unfold qualityTextClass, qualityBarClass. rewrite Hlo.
  split; [destruct (80 <=? _)%float; discriminate | ].
  split; [destruct (80 <=? _)%float; discriminate | ].
  intros Hd.
  rewrite (clamp_top _ (score_ge_100 _ _ (avgContrast_nonneg img Hv) Hd)).
  split; reflexivity.
Qed.

Lemma badge_is_never_red_witness :
  qualityTextClass (quality (validate black_above_white_pixel))
    <> "text-red-600"%string /\
  qualityTextClass (quality (validate black_over_white))
    = "text-green-600"%string.
Proof.
  split.
  - apply (badge_is_never_red black_above_white_pixel
             valid_black_above_white_pixel).
  - apply (badge_is_never_red black_over_white valid_black_over_white).
    reflexivity.
Defined.

(** ** Images without vertical change *)

Lemma flat_result (img : ImageData) :
  valid_image img -> edge_pass img = acc0 ->
  avgContrast img = 0%float /\ edgeDensity img = 0%float /\
  quality (validate img) = 60%float /\
  In issue_contrast (issues (validate img)) /\
  In rec_contrast (recommendations (validate img)) /\
  In rec_features (recommendations (validate img)).
Proof.
  intros Hv Hep.
  pose proof (pixelCount_posfin img Hv) as Hpc.
  assert (Ha : avgContrast img = 0%float).
  { unfold avgContrast. rewrite Hep. now apply zero_div. }
  assert (Hd : edgeDensity img = 0%float).
  { unfold edgeDensity. rewrite Hep. now apply zero_div. }
  assert (Hcon : low_contrast img = true)
    by (unfold low_contrast; now rewrite Ha).
  assert (Hfew : few_edges img = true)
    by (unfold few_edges; now rewrite Hd).
  split; [exact Ha | ]. split; [exact Hd | ].
  split; [unfold validate; cbn [quality]; now rewrite Ha, Hd | ].
  rewrite issues_eq, recommendations_eq, Hcon, Hfew.
  repeat split; decide_in.
Qed.

Lemma brights_app (l1 : list Z) :
  forall l2 N, length l1 = (4 * N)%nat ->
  brights (l1 ++ l2) = brights l1 ++ brights l2.
Proof.
  induction l1 as [l1 Hshort | r g b a l1 IH] using list_ind4; intros l2 N HN.
  - destruct l1 as [ | r [ | g [ | b [ | a rest ] ] ] ];
      simpl in Hshort, HN; try lia; reflexivity.
  - destruct N as [ | N]; simpl in HN; [lia | ].
    cbn [app brights]. f_equal. apply (IH l2 N). lia.
Qed.

Lemma brights_concat_repeat (row : list Z) (w h : nat) :
  length row = (4 * w)%nat ->
  brights (concat (repeat row h)) = concat (repeat (brights row) h).
Proof.
  intros Hr. induction h as [ | h IH]; [reflexivity | ].
  cbn [repeat concat]. rewrite (brights_app row _ w Hr). now rewrite IH.
Qed.

Lemma concat_repeat_snoc {A : Type} (R : list A) (h : nat) :
  concat (repeat R (S h)) = concat (repeat R h) ++ R.
Proof.
  cbn [repeat]. rewrite repeat_cons, concat_app.
  cbn [concat]. now rewrite app_nil_r.
Qed.

Lemma scan_self (cur : list float) :
  Forall finite cur -> forall rest, scan cur (cur ++ rest) acc0 = acc0.
Proof.
  induction 1 as [ | c cur Hc _ IH]; intros rest; [reflexivity | ].
  cbn [app scan].
  assert (Hs : step acc0 c c = acc0).
  { unfold step. rewrite abs_sub_diag by assumption. reflexivity. }
  rewrite Hs. apply IH.
Qed.

Lemma scan_rows (R : list float) (h : nat) :
  Forall finite R ->
  scan (skipn (S (length R)) (concat (repeat R h)))
       (skipn 1 (concat (repeat R h))) acc0 = acc0.
Proof.
  intros HR. destruct h as [ | h]; [reflexivity | ].
  change (S (length R)) with (1 + length R)%nat.
  rewrite <- skipn_skipn.
  assert (Hs : skipn (length R) (concat (repeat R (S h))) = concat (repeat R h)).
  { cbn [repeat concat]. rewrite skipn_app, skipn_all, Nat.sub_diag.
    reflexivity. }
  rewrite Hs, concat_repeat_snoc.
  destruct (concat (repeat R h)) as [ | x X] eqn:HX; [now destruct R | ].
  cbn [app skipn].
  apply scan_self.
  assert (Hall : Forall finite (concat (repeat R h))).
  { apply Forall_concat. apply Forall_forall. intros y Hy.
    apply repeat_spec in Hy. now subst y. }
  rewrite HX in Hall. now inversion Hall.
Qed.

(** An image whose rows are all the same (vertical stripes, or any image of
    one row) has no contrast for the heuristic, whatever the row: zero
    average contrast and edge density, quality 60, the low-contrast issue
    and both the contrast and the features recommendation. *)
Theorem identical_rows_have_no_contrast (img : ImageData) (row : list Z) :
  valid_image img ->
  length row = (4 * Z.to_nat (width img))%nat ->
  data img = concat (repeat row (Z.to_nat (height img))) ->
  edge_pass img = acc0 /\
  avgContrast img = 0%float /\ edgeDensity img = 0%float /\
  quality (validate img) = 60%float /\
  In issue_contrast (issues (validate img)) /\
  In rec_contrast (recommendations (validate img)) /\
  In rec_features (recommendations (validate img)).
Proof.
  intros Hv Hrow Hdata.
  assert (Hep : edge_pass img = acc0).
  { destruct (valid_image_length img Hv) as (N & HN & _).
    destruct Hv as (Hw & Hh & _ & _ & Hb).
    rewrite (edge_pass_scan img N ltac:(lia) HN).
    pose proof (brights_finite _ Hb) as Hf.
    rewrite Hdata in *.
    rewrite (brights_concat_repeat row _ _ Hrow) in *.
    assert (HR : Forall finite (brights row)).
    { destruct (Z.to_nat (height img)) as [ | h] eqn:Hh'; [lia | ].
      cbn [repeat concat] in Hf. now apply Forall_app in Hf. }
    rewrite <- (brights_length _ row Hrow) at 1.
    now apply scan_rows. }
  split; [exact Hep | ]. now apply flat_result.
Qed.

Lemma identical_rows_have_no_contrast_witness :
  quality
    (validate
       (mkImageData 2 3
          (concat (repeat [0; 0; 0; 255;  255; 255; 255; 255] 3))))
  = 60%float.
Proof.
  apply (identical_rows_have_no_contrast
           (mkImageData 2 3
              (concat (repeat [0; 0; 0; 255;  255; 255; 255; 255] 3)))
           [0; 0; 0; 255;  255; 255; 255; 255]); try reflexivity.
  unfold valid_image; cbn [width height data length repeat concat app].
  repeat split; try lia. repeat constructor; lia.
Defined.

(** ** The number of edges *)

(** The first row and the first pixel of the second row are never counted:
    the edge count of a decoded image is at most [W * (H - 1) - 1], and zero
    for an image of one row. *)
Theorem edge_count_bound (img : ImageData) :
  valid_image img ->
  0 <= edgeCount (edge_pass img)
    <= Z.max 0 (width img * (height img - 1) - 1).
Proof.
  intros Hv. destruct (valid_image_length img Hv) as (N & HN & HN0 & HN1).
  destruct Hv as (Hw & Hh & Hlen & _ & Hb).
  rewrite (edge_pass_scan img N ltac:(lia) HN).
  pose proof (scan_count
                (skipn (S (Z.to_nat (width img))) (brights (data img)))
                (skipn 1 (brights (data img))) acc0) as Hc.
  rewrite length_skipn, (brights_length N _ HN) in Hc.
  change (edgeCount acc0) with 0 in Hc.
  assert (HNZ : Z.of_nat N = width img * height img) by nia.
  lia.
Qed.

Lemma edge_count_bound_witness :
  0 <= edgeCount (edge_pass black_over_white) <= 1.
Proof.
  exact (edge_count_bound black_over_white valid_black_over_white).
Defined.

(** ** The aspect-ratio test on the integers *)

Lemma binary_round_aux_cases (s : bool) (M E : Z) (l : location) :
  0 < M -> 53 <= Zdigits2 M ->
  -1074 <= Zdigits2 M + E - 53 <= 970 ->
  exists m2 e2,
    binary_round_aux prec emax s M E l = S754_finite s m2 e2 /\
    ((e2 = Zdigits2 M + E - 53 /\
      M / 2 ^ (Zdigits2 M - 53) <= Z.pos m2 <= M / 2 ^ (Zdigits2 M - 53) + 1 /\
      Z.pos m2 < 2 ^ 53) \/
     (e2 = Zdigits2 M + E - 52 /\ Z.pos m2 = 2 ^ 52 /\
      M / 2 ^ (Zdigits2 M - 53) = 2 ^ 53 - 1)).
Proof.
  intros HM Hd He.
  pose proof (Zdigits2_bounds M HM) as [Hlo Hhi].
  set (d := Zdigits2 M) in *.
  unfold binary_round_aux.
  pose proof (shr_fexp_spec M E l (Z.lt_le_incl _ _ HM)) as [H1 H1e].
  fold d in H1, H1e.
  rewrite fexp_normal in H1, H1e by lia.
  replace (Z.max 0 (d + E - 53 - E)) with (d - 53) in H1, H1e by lia.
  destruct (shr_fexp prec emax M E l) as [mrs' e1].
  simpl fst in H1; simpl snd in H1e.
  set (m1 := M / 2 ^ (d - 53)) in *.
  assert (Hp : 0 < 2 ^ (d - 53)) by (apply Z.pow_pos_nonneg; lia).
  assert (Hm1 : 2 ^ 52 <= m1 < 2 ^ 53).
  { split.
    - apply Z.div_le_lower_bound; [assumption | ].
      rewrite <- Z.pow_add_r by lia.
      replace (d - 53 + 52) with (d - 1) by lia. assumption.
    - apply Z.div_lt_upper_bound; [assumption | ].
      rewrite <- Z.pow_add_r by lia.
      replace (d - 53 + 53) with d by lia. assumption. }
  pose proof (round_nearest_even_bounds (shr_m mrs') (loc_of_shr_record mrs')) as Hr.
  set (m1' := round_nearest_even (shr_m mrs') (loc_of_shr_record mrs')) in *.
  rewrite H1 in Hr.
  assert (Hm1' : 0 <= m1') by lia.
  pose proof (shr_fexp_spec m1' e1 loc_Exact Hm1') as [H2 H2e].
  destruct (shr_fexp prec emax m1' e1 loc_Exact) as [mrs'' e2].
  simpl fst in H2; simpl snd in H2e.
  change (emax - prec) with 971.
  destruct (Z_lt_le_dec m1' (2 ^ 53)) as [Hlt | Hge].
  - assert (Hd' : Zdigits2 m1' = 53) by (apply Zdigits2_unique; simpl Z.sub; lia).
    rewrite Hd', fexp_normal in H2, H2e by lia.
    replace (Z.max 0 (53 + e1 - 53 - e1)) with 0 in H2, H2e by lia.
    rewrite Z.pow_0_r, Z.div_1_r in H2.
    rewrite H2.
    destruct m1' as [ | p | p ]; try lia.
    exists p, e2.
    replace (e2 <=? 971) with true by (symmetry; apply Z.leb_le; lia).
    split; [reflexivity | ]. left. repeat split; lia.
  - assert (Hm : m1' = 2 ^ 53) by lia.
    assert (Hd' : Zdigits2 m1' = 54) by (rewrite Hm; reflexivity).
    rewrite Hd', fexp_normal in H2, H2e by lia.
    replace (Z.max 0 (54 + e1 - 53 - e1)) with 1 in H2, H2e by lia.
    rewrite Hm in H2. change (2 ^ 53 / 2 ^ 1) with (2 ^ 52) in H2.
    rewrite H2. change (2 ^ 52) with (Z.pos (2 ^ 52)).
    exists (2 ^ 52)%positive, e2.
    replace (e2 <=? 971) with true by (symmetry; apply Z.leb_le; lia).
    split; [reflexivity | ]. right. repeat split; lia.
Qed.

Lemma binary_round_aux_exact53 (s : bool) (m : positive) (E : Z) :
  Zdigits2 (Z.pos m) = 53 -> -1074 <= E <= 971 ->
  binary_round_aux prec emax s (Z.pos m) E loc_Exact = S754_finite s m E.
Proof.
  intros Hd HE. unfold binary_round_aux, shr_fexp.
  rewrite Hd, fexp_normal by lia.
  replace (53 + E - 53 - E) with 0 by lia.
  cbn [shr shr_record_of_loc shr_m loc_of_shr_record round_nearest_even].
  rewrite Hd, fexp_normal by lia.
  replace (53 + E - 53 - E) with 0 by lia.
  cbn [shr shr_record_of_loc shr_m].
  change (emax - prec) with 971.
  replace (E <=? 971) with true by (symmetry; apply Z.leb_le; lia).
  reflexivity.
Qed.

(** The conversion of an integer below 2^53 is exact. *)
Lemma of_int_exact (z : Z) :
  0 < z < 2 ^ 53 ->
  exists m,
    Prim2SF (Js.of_int z) = S754_finite false m (Zdigits2 z - 53) /\
    Z.pos m = z * 2 ^ (53 - Zdigits2 z) /\
    Zdigits2 (Z.pos m) = 53 /\ 1 <= Zdigits2 z <= 53.
Proof.
  intros Hz. rewrite of_int_spec by lia.
  destruct z as [ | p | p ]; try lia.
  pose proof (digits2_pos_bounds p) as [Hlo Hhi].
  unfold binary_normalize, binary_round. simpl Zdigits2.
  set (d := Z.pos (digits2_pos p)) in *.
  assert (Hd : 1 <= d <= 53).
  { split; [unfold d; lia | ].
    destruct (Z_le_gt_dec d 53) as [ | Hgt ]; [assumption | exfalso].
    assert (2 ^ 53 <= 2 ^ (d - 1)) by (apply Z.pow_le_mono_r; lia). lia. }
  rewrite Z.add_0_r, fexp_normal by lia.
  unfold shl_align.
  destruct (d - 53 - 0) as [ | k | k ] eqn:Hk; try lia.
  - assert (Hd53 : d = 53) by lia.
    exists p. rewrite binary_round_aux_exact53 by (simpl; fold d; lia).
    rewrite Hd53. simpl Z.sub. rewrite Z.mul_1_r.
    repeat split; first [lia | simpl; fold d; lia].
  - assert (Hk' : Z.pos k = 53 - d) by lia.
    assert (Hdig : Zdigits2 (Z.pos (Pos.iter xO p k)) = 53).
    { apply Zdigits2_unique; [ | lia].
      rewrite iter_xO_Z.
      assert (E1 : 2 ^ (53 - 1) = 2 ^ (d - 1) * 2 ^ Z.pos k)
        by (rewrite <- Z.pow_add_r by lia; f_equal; lia).
      assert (E2 : 2 ^ 53 = 2 ^ d * 2 ^ Z.pos k)
        by (rewrite <- Z.pow_add_r by lia; f_equal; lia).
      assert (0 < 2 ^ Z.pos k) by (apply Z.pow_pos_nonneg; lia).
      rewrite E1, E2.
      split; [apply Z.mul_le_mono_nonneg_r | apply Z.mul_lt_mono_pos_r]; lia. }
    exists (Pos.iter xO p k).
    rewrite binary_round_aux_exact53 by (try assumption; lia).
    split; [reflexivity | ].
    split; [rewrite iter_xO_Z, Hk'; reflexivity | ].
    split; [exact Hdig | lia].
Qed.

Lemma SFdiv_finite (mw mh : positive) (ew eh : Z) :
  Zdigits2 (Z.pos mw) = 53 -> Zdigits2 (Z.pos mh) = 53 ->
  -900 <= ew - eh <= 900 ->
  SFdiv prec emax (S754_finite false mw ew) (S754_finite false mh eh) =
  binary_round_aux prec emax false
    ((Z.pos mw * 2 ^ 53) / Z.pos mh) (ew - eh - 53)
    (new_location (Z.pos mh) ((Z.pos mw * 2 ^ 53) mod Z.pos mh)).
Proof.
  intros Hw Hh He. unfold SFdiv, SFdiv_core_binary.
  rewrite Hw, Hh.
  replace (53 + ew - (53 + eh)) with (ew - eh) by lia.
  rewrite fexp_normal by lia.
  replace (Z.min (ew - eh - 53) (ew - eh)) with (ew - eh - 53) by lia.
  replace (ew - eh - (ew - eh - 53)) with 53 by lia.
  rewrite Z.shiftl_mul_pow2 by lia.
  unfold Z.div, Z.modulo.
  destruct (Z.div_eucl (Z.pos mw * 2 ^ 53) (Z.pos mh)) as [q r].
  reflexivity.
Qed.

Lemma Zdigits2_upper (q j : Z) : 0 < q -> q < 2 ^ j -> Zdigits2 q <= j.
Proof.
  intros Hq Hlt.
  pose proof (Zdigits2_bounds q Hq) as [Hlo _].
  assert (Hd : 0 < Zdigits2 q) by (destruct q; simpl; lia).
  destruct (Z_le_gt_dec (Zdigits2 q) j) as [ | Hgt]; [assumption | exfalso].
  assert (0 <= j).
  { destruct (Z_le_gt_dec 0 j); [assumption | ].
    rewrite Z.pow_neg_r in Hlt by lia. lia. }
  assert (2 ^ j <= 2 ^ (Zdigits2 q - 1)) by (apply Z.pow_le_mono_r; lia).
  lia.
Qed.

Lemma mantissa_lower (M : Z) :
  0 < M -> 53 <= Zdigits2 M -> 2 ^ 52 <= M / 2 ^ (Zdigits2 M - 53).
Proof.
  intros HM Hd. pose proof (Zdigits2_bounds M HM) as [Hlo _].
  apply Z.div_le_lower_bound; [apply Z.pow_pos_nonneg; lia | ].
  rewrite <- Z.pow_add_r by lia.
  now replace (Zdigits2 M - 53 + 52) with (Zdigits2 M - 1) by lia.
Qed.

Lemma scaled_quotient (W H k j : Z) :
  0 < H -> 0 <= j <= k ->
  (W * 2 ^ k) / H / 2 ^ (k - j) = (W * 2 ^ j) / H.
Proof.
  intros HH Hj.
  assert (Hp : 0 < 2 ^ (k - j)) by (apply Z.pow_pos_nonneg; lia).
  rewrite Z.div_div by lia.
  replace (W * 2 ^ k) with (W * 2 ^ j * 2 ^ (k - j)).
  - apply Z.div_mul_cancel_r; lia.
  - rewrite <- Z.mul_assoc, <- Z.pow_add_r by lia. do 2 f_equal. lia.
Qed.

Lemma SFltb_finite (m1 m2 : positive) (e1 e2 : Z) :
  SFltb (S754_finite false m1 e1) (S754_finite false m2 e2) = true <->
  e1 < e2 \/ (e1 = e2 /\ Z.pos m1 < Z.pos m2).
Proof.
  unfold SFltb, SFcompare.
  destruct (Z.compare_spec e1 e2) as [He | He | He].
  - rewrite Pos.compare_cont_spec. simpl.
    destruct (Pos.compare_spec m1 m2) as [Hm | Hm | Hm].
    + subst. split; [discriminate | lia].
    + apply Pos2Z.pos_lt_pos in Hm. split; [intros _; right; lia | reflexivity].
    + apply Pos2Z.pos_lt_pos in Hm. split; [discriminate | lia].
  - split; [intros _; now left | reflexivity].
  - split; [discriminate | lia].
Qed.

(** The quotient of two positive integers below 2^53, before rounding: with
    [k = 53 + digits H - digits W], it is the rounding of
    [(W * 2^k / H) * 2^(-k)], a mantissa of 53 or 54 bits. *)
Lemma ratio_spec (W H : Z) :
  0 < W < 2 ^ 53 -> 0 < H < 2 ^ 53 ->
  exists (mw mh : positive),
    let k := 53 + Zdigits2 H - Zdigits2 W in
    Z.pos mw = W * 2 ^ (53 - Zdigits2 W) /\
    Z.pos mh = H * 2 ^ (53 - Zdigits2 H) /\
    1 <= k <= 105 /\
    (Z.pos mw * 2 ^ 53) / Z.pos mh = (W * 2 ^ k) / H /\
    53 <= Zdigits2 ((W * 2 ^ k) / H) <= 54 /\
    Prim2SF (Js.of_int W / Js.of_int H)%float =
    binary_round_aux prec emax false ((W * 2 ^ k) / H) (- k)
      (new_location (Z.pos mh) ((Z.pos mw * 2 ^ 53) mod Z.pos mh)).
Proof.
  intros HW HH.
  destruct (of_int_exact W HW) as (mw & Hsw & Hmw & Hdw & HdW).
  destruct (of_int_exact H HH) as (mh & Hsh & Hmh & Hdh & HdH).
  exists mw, mh. intros k.
  assert (Hk : 1 <= k <= 105) by (unfold k; lia).
  assert (Hq : (Z.pos mw * 2 ^ 53) / Z.pos mh = (W * 2 ^ k) / H).
  { rewrite Hmw, Hmh.
    assert (Hp : 0 < 2 ^ (53 - Zdigits2 H)) by (apply Z.pow_pos_nonneg; lia).
    replace (W * 2 ^ (53 - Zdigits2 W) * 2 ^ 53)
      with (W * 2 ^ k * 2 ^ (53 - Zdigits2 H)).
    - apply Z.div_mul_cancel_r; lia.
    - rewrite <- !Z.mul_assoc, <- !Z.pow_add_r by lia.
      do 2 f_equal. unfold k. lia. }
  pose proof (Zdigits2_bounds (Z.pos mw) ltac:(lia)) as Hbw.
  pose proof (Zdigits2_bounds (Z.pos mh) ltac:(lia)) as Hbh.
  rewrite Hdw in Hbw. rewrite Hdh in Hbh.
  change (2 ^ (53 - 1)) with 4503599627370496 in *.
  change (2 ^ 53) with 9007199254740992 in Hbw, Hbh.
  assert (Hd : 53 <= Zdigits2 ((W * 2 ^ k) / H) <= 54).
  { rewrite <- Hq. change (2 ^ 53) with 9007199254740992. split.
    - change 53 with (52 + 1). apply Zdigits2_lower; [lia | ].
      apply Z.div_le_lower_bound; [lia | ].
      change (2 ^ 52) with 4503599627370496. lia.
    - assert (Hlo : 4503599627370496 <= Z.pos mw * 9007199254740992 / Z.pos mh)
        by (apply Z.div_le_lower_bound; lia).
      apply Zdigits2_upper; [lia | ].
      apply Z.div_lt_upper_bound; [lia | ].
      change (2 ^ 54) with 18014398509481984. lia. }
  repeat split; try lia; try assumption.
  rewrite div_spec, Hsw, Hsh. unfold SF64div.
  rewrite SFdiv_finite by (try assumption; lia).
  rewrite Hq. f_equal. unfold k. lia.
Qed.

Lemma quotient_positive (q : Z) : 0 <= q -> 53 <= Zdigits2 q -> 0 < q.
Proof. destruct q; simpl; lia. Qed.

Lemma ratio_lt_half (W H : Z) :
  0 < W < 2 ^ 53 -> 0 < H < 2 ^ 53 ->
  (Js.of_int W / Js.of_int H <? 0.5)%float = true <-> 2 * W < H.
Proof.
  intros HW HH.
  destruct (ratio_spec W H HW HH) as (mw & mh & _ & _ & Hk & _ & Hd & Heq).
  set (k := 53 + Zdigits2 H - Zdigits2 W) in *.
  set (q := (W * 2 ^ k) / H) in *.
  assert (Hq0 : 0 < q).
  { apply quotient_positive; [ | lia].
    apply Z.div_pos; [ | lia].
    apply Z.mul_nonneg_nonneg; [lia | apply Z.pow_nonneg; lia]. }
  destruct (binary_round_aux_cases false q (- k)
              (new_location (Z.pos mh) ((Z.pos mw * 2 ^ 53) mod Z.pos mh))
              Hq0 ltac:(lia) ltac:(lia))
    as (m2 & e2 & Hres & Hcases).
  pose proof (mantissa_lower q Hq0 ltac:(lia)) as Hm1.
  change (2 ^ 52) with 4503599627370496 in *.
  change (2 ^ 53) with 9007199254740992 in *.
  rewrite ltb_spec, Heq, Hres.
  change (Prim2SF 0.5) with (S754_finite false 4503599627370496 (-53)).
  rewrite SFltb_finite.
  assert (HP : 0 < 2 ^ (k - 1)) by (apply Z.pow_pos_nonneg; lia).
  assert (Hkk : 2 ^ k = 2 * 2 ^ (k - 1)).
  { replace k with (Z.succ (k - 1)) at 1 by lia.
    apply Z.pow_succ_r. lia. }
  split.
  - intros Hlt.
    destruct (Z_lt_le_dec (2 * W) H) as [ | Hge]; [assumption | exfalso].
    assert (Hdk : k <= Zdigits2 q).
    { replace k with ((k - 1) + 1) by lia.
      apply Zdigits2_lower; [lia | ].
      apply Z.div_le_lower_bound; [lia | ]. rewrite Hkk. nia. }
    lia.
  - intros Hlt. left.
    assert (Hdk : Zdigits2 q <= k - 1).
    { apply Zdigits2_upper; [assumption | ].
      apply Z.div_lt_upper_bound; [lia | ]. rewrite Hkk. nia. }
    destruct Hcases as [(He & _) | (He & _ & Hm)]; [lia | ].
    destruct (Z.eq_dec (Zdigits2 q) (k - 1)) as [Heqd | ]; [exfalso | lia].
    rewrite Heqd in Hm.
    replace (k - 1 - 53) with (k - 54) in Hm by lia.
    unfold q in Hm. rewrite scaled_quotient in Hm by lia.
    assert (Hup : W * 2 ^ 54 / H < 9007199254740992 - 1).
    { apply Z.div_lt_upper_bound; [lia | ].
      change (2 ^ 54) with 18014398509481984. lia. }
    lia.
Qed.

Lemma ratio_two (H : Z) :
  0 < H < 2 ^ 52 ->
  Prim2SF (Js.of_int (2 * H) / Js.of_int H)%float
  = S754_finite false 4503599627370496 (-51).
Proof.
  intros HH.
  assert (HW : 0 < 2 * H < 2 ^ 53)
    by (change (2 ^ 53) with (2 * 2 ^ 52); lia).
  assert (HH' : 0 < H < 2 ^ 53)
    by (change (2 ^ 53) with (2 * 2 ^ 52); lia).
  destruct (ratio_spec (2 * H) H HW HH')
    as (mw & mh & Hmw & Hmh & _ & _ & _ & Heq).
  pose proof (Zdigits2_bounds H ltac:(lia)) as [Hlo Hhi].
  assert (HdH : 0 < Zdigits2 H) by (destruct H; simpl; lia).
  assert (Hd2 : Zdigits2 (2 * H) = Zdigits2 H + 1).
  { apply Zdigits2_unique; [ | lia].
    assert (E1 : 2 ^ (Zdigits2 H + 1 - 1) = 2 * 2 ^ (Zdigits2 H - 1)).
    { replace (Zdigits2 H + 1 - 1) with (Z.succ (Zdigits2 H - 1)) by lia.
      apply Z.pow_succ_r. lia. }
    assert (E2 : 2 ^ (Zdigits2 H + 1) = 2 * 2 ^ Zdigits2 H).
    { replace (Zdigits2 H + 1) with (Z.succ (Zdigits2 H)) by lia.
      apply Z.pow_succ_r. lia. }
    rewrite E1, E2. lia. }
  rewrite Hd2 in *.
  replace (53 + Zdigits2 H - (Zdigits2 H + 1)) with 52 in Heq by lia.
  assert (Hpos : Zdigits2 H <= 52).
  { apply Zdigits2_upper; lia. }
  assert (Hm : Z.pos mw = Z.pos mh).
  { rewrite Hmw, Hmh.
    replace (53 - Zdigits2 H) with (Z.succ (53 - (Zdigits2 H + 1))) by lia.
    rewrite Z.pow_succ_r by lia. ring. }
  rewrite Hm in Heq.
  rewrite (Z.mul_comm (Z.pos mh) (2 ^ 53)), Z.mod_mul in Heq by lia.
  replace (2 * H * 2 ^ 52 / H) with (2 ^ 53) in Heq.
  - assert (Hl : new_location (Z.pos mh) 0 = loc_Exact).
    { unfold new_location, new_location_even, new_location_odd.
      destruct (Z.even (Z.pos mh)); reflexivity. }
    rewrite Hl in Heq. rewrite Heq. reflexivity.
  - symmetry. replace (2 * H * 2 ^ 52) with (2 ^ 53 * H).
    + apply Z.div_mul. lia.
    + change (2 ^ 53) with (2 * 2 ^ 52). ring.
Qed.

Lemma ratio_gt_two (W H : Z) :
  0 < W < 2 ^ 53 -> 0 < H <= 2 ^ 51 ->
  (2 <? Js.of_int W / Js.of_int H)%float = true <-> 2 * H < W.
Proof.
  intros HW HH.
  destruct (Z.eq_dec W (2 * H)) as [-> | Hne].
  { rewrite ltb_spec, ratio_two
      by (change (2 ^ 52) with (2 * 2 ^ 51); lia).
    split; [discriminate | lia]. }
  assert (HH' : 0 < H < 2 ^ 53)
    by (change (2 ^ 53) with (4 * 2 ^ 51); lia).
  destruct (ratio_spec W H HW HH') as (mw & mh & _ & _ & Hk & _ & Hd & Heq).
  set (k := 53 + Zdigits2 H - Zdigits2 W) in *.
  set (q := (W * 2 ^ k) / H) in *.
  assert (Hq0 : 0 < q).
  { apply quotient_positive; [ | lia].
    apply Z.div_pos; [ | lia].
    apply Z.mul_nonneg_nonneg; [lia | apply Z.pow_nonneg; lia]. }
  destruct (binary_round_aux_cases false q (- k)
              (new_location (Z.pos mh) ((Z.pos mw * 2 ^ 53) mod Z.pos mh))
              Hq0 ltac:(lia) ltac:(lia))
    as (m2 & e2 & Hres & Hcases).
  change (2 ^ 51) with 2251799813685248 in *.
  change (2 ^ 52) with 4503599627370496 in *.
  change (2 ^ 53) with 9007199254740992 in *.
  rewrite ltb_spec, Heq, Hres.
  change (Prim2SF 2) with (S754_finite false 4503599627370496 (-51)).
  rewrite SFltb_finite.
  assert (HP : 0 < 2 ^ k) by (apply Z.pow_pos_nonneg; lia).
  assert (Hkk : 2 ^ (k + 1) = 2 * 2 ^ k).
  { replace (k + 1) with (Z.succ k) by lia. apply Z.pow_succ_r. lia. }
  split.
  - intros Hlt.
    destruct (Z_lt_le_dec (2 * H) W) as [ | Hge]; [assumption | exfalso].
    assert (Hdk : Zdigits2 q <= k + 1).
    { apply Zdigits2_upper; [assumption | ].
      apply Z.div_lt_upper_bound; [lia | ]. rewrite Hkk. nia. }
    lia.
  - intros Hlt.
    assert (Hdk : k + 2 <= Zdigits2 q).
    { replace (k + 2) with ((k + 1) + 1) by lia.
      apply Zdigits2_lower; [lia | ].
      apply Z.div_le_lower_bound; [lia | ]. rewrite Hkk. nia. }
    destruct Hcases as [(He & Hm & _) | (He & _ & _)]; [ | left; lia].
    destruct (Z.eq_dec (Zdigits2 q) (k + 2)) as [Heqd | ]; [ | left; lia].
    right. split; [lia | ].
    rewrite Heqd in Hm.
    replace (k + 2 - 53) with (k - 51) in Hm by lia.
    unfold q in Hm. rewrite scaled_quotient in Hm by lia.
    assert (Hlow : 4503599627370496 + 1 <= W * 2 ^ 51 / H).
    { apply Z.div_le_lower_bound; [lia | ].
      change (2 ^ 51) with 2251799813685248. lia. }
    lia.
Qed.

(** For a decoded image the two comparisons of the rounded quotient
    [width / height] decide exactly [2 * W < H] and [2 * H < W]: the
    aspect-ratio issue is reported exactly for images more than twice as
    high as wide or more than twice as wide as high, and an image of ratio
    exactly 1:2 or 2:1 never has it. *)
Theorem aspect_test_is_exact (img : ImageData) :
  valid_image img ->
  ((aspectRatio img <? 0.5)%float = true <-> 2 * width img < height img) /\
  ((2 <? aspectRatio img)%float = true <-> 2 * height img < width img) /\
  (In issue_aspect (issues (validate img)) <->
   2 * width img < height img \/ 2 * height img < width img).
Proof.
  intros (Hw & Hh & Hlen & Hsafe & _).
  rewrite Hlen in Hsafe.
  assert (HW : 0 < width img < 2 ^ 53) by nia.
  assert (HH : 0 < height img <= 2 ^ 51)
    by (change (2 ^ 53) with (4 * 2 ^ 51) in Hsafe; nia).
  assert (HH' : 0 < height img < 2 ^ 53)
    by (change (2 ^ 53) with (4 * 2 ^ 51); lia).
  pose proof (ratio_lt_half _ _ HW HH') as Hhalf.
  pose proof (ratio_gt_two _ _ HW HH) as Htwo.
  fold (aspectRatio img) in Hhalf, Htwo.
  split; [exact Hhalf | ]. split; [exact Htwo | ].
  rewrite <- Hhalf, <- Htwo, <- orb_true_iff. fold (odd_aspect img).
  rewrite issues_eq. decide_in.
Qed.

Lemma aspect_test_is_exact_witness :
  valid_image black_above_white_pixel
  /\ (In issue_aspect (issues (validate black_above_white_pixel))
      <-> 2 * 1 < 2 \/ 2 * 2 < 1).
Proof.
  split; [exact valid_black_above_white_pixel|].
  apply (aspect_test_is_exact black_above_white_pixel
           valid_black_above_white_pixel).
Defined.

(** ** The issue list *)

Lemma odd_aspect_integers (img : ImageData) :
  valid_image img ->
  odd_aspect img = true <->
  2 * width img < height img \/ 2 * height img < width img.
Proof.
  intros (Hw & Hh & Hlen & Hsafe & _).
  rewrite Hlen in Hsafe.
  assert (HW : 0 < width img < 2 ^ 53) by nia.
  assert (HH : 0 < height img <= 2 ^ 51)
    by (change (2 ^ 53) with (4 * 2 ^ 51) in Hsafe; nia).
  assert (HH' : 0 < height img < 2 ^ 53)
    by (change (2 ^ 53) with (4 * 2 ^ 51); lia).
  unfold odd_aspect, aspectRatio.
  rewrite orb_true_iff, (ratio_lt_half _ _ HW HH'), (ratio_gt_two _ _ HW HH).
  reflexivity.
Qed.

(** C4: the three issues are reported exactly under their conditions, in the
    fixed order resolution, aspect ratio, contrast, each together with its
    recommendation.  The aspect-ratio condition is the comparison of the
    binary64 quotient [width / height] with 0.5 and with 2, which for a
    decoded image holds exactly when [2 * width < height] or
    [2 * height < width].  A 100x100 image always has the resolution issue
    and a 1000x100 image always has the aspect-ratio issue, whatever its
    pixels. *)
Theorem issues_exactly_when (img : ImageData) :
  (In issue_resolution (issues (validate img))
     <-> width img < 256 \/ height img < 256) /\
  (In issue_aspect (issues (validate img))
     <-> (Js.of_int (width img) / Js.of_int (height img) <? 0.5)%float = true
         \/ (2 <? Js.of_int (width img) / Js.of_int (height img))%float
            = true) /\
  (valid_image img ->
   (In issue_aspect (issues (validate img))
      <-> 2 * width img < height img \/ 2 * height img < width img)) /\
  (In issue_contrast (issues (validate img))
     <-> (avgContrast img <? 15)%float = true) /\
  issues (validate img) =
    when ((width img <? 256) || (height img <? 256)) issue_resolution
      ++ when ((Js.of_int (width img) / Js.of_int (height img) <? 0.5)%float
               || (2 <? Js.of_int (width img) / Js.of_int (height img))%float)
           issue_aspect
      ++ when (avgContrast img <? 15)%float issue_contrast /\
  (In issue_resolution (issues (validate img))
     <-> In rec_resolution (recommendations (validate img))) /\
  (In issue_aspect (issues (validate img))
     <-> In rec_aspect (recommendations (validate img))) /\
  (In issue_contrast (issues (validate img))
     <-> In rec_contrast (recommendations (validate img))) /\
  (forall d : list Z,
      In issue_resolution (issues (validate (mkImageData 100 100 d))) /\
      In rec_resolution (recommendations (validate (mkImageData 100 100 d)))) /\
  (forall d : list Z,
      In issue_aspect (issues (validate (mkImageData 1000 100 d))) /\
      In rec_aspect (recommendations (validate (mkImageData 1000 100 d)))).
Proof.
  fold (aspectRatio img) (odd_aspect img) (low_resolution img)
    (low_contrast img).
  assert (Hodd : In issue_aspect (issues (validate img))
                 <-> odd_aspect img = true)
    by (rewrite issues_eq; decide_in).
  split; [|split; [|split; [|split; [|split; [|split; [|split; [|split;
    [|split]]]]]]]].
  - rewrite <- low_resolution_iff, issues_eq. decide_in.
  - rewrite Hodd. unfold odd_aspect. apply orb_true_iff.
  - intros Hv. rewrite Hodd. now apply odd_aspect_integers.
  - rewrite issues_eq. decide_in.
  - apply issues_eq.
  - rewrite issues_eq, recommendations_eq. decide_in.
  - rewrite issues_eq, recommendations_eq. decide_in.
  - rewrite issues_eq, recommendations_eq. decide_in.
  - intros d. split.
    + rewrite issues_eq. left. reflexivity.
    + rewrite recommendations_eq. left. reflexivity.
  - intros d.
    assert (Ha : odd_aspect (mkImageData 1000 100 d) = true) by reflexivity.
    split.
    + rewrite issues_eq, Ha. decide_in.
    + rewrite recommendations_eq, Ha. decide_in.
Qed.

(** ** The contrast term of the score *)

Lemma SFdiv_finite_lo (mw mh : positive) (ew eh : Z) :
  Zdigits2 (Z.pos mw) = 53 -> Zdigits2 (Z.pos mh) = 53 ->
  -1021 <= ew - eh ->
  SFdiv prec emax (S754_finite false mw ew) (S754_finite false mh eh) =
  binary_round_aux prec emax false
    ((Z.pos mw * 2 ^ 53) / Z.pos mh) (ew - eh - 53)
    (new_location (Z.pos mh) ((Z.pos mw * 2 ^ 53) mod Z.pos mh)).
Proof.
  intros Hw Hh He. unfold SFdiv, SFdiv_core_binary.
  rewrite Hw, Hh.
  replace (53 + ew - (53 + eh)) with (ew - eh) by lia.
  rewrite fexp_normal by lia.
  replace (Z.min (ew - eh - 53) (ew - eh)) with (ew - eh - 53) by lia.
  replace (ew - eh - (ew - eh - 53)) with 53 by lia.
  rewrite Z.shiftl_mul_pow2 by lia.
  unfold Z.div, Z.modulo.
  destruct (Z.div_eucl (Z.pos mw * 2 ^ 53) (Z.pos mh)) as [q r].
  reflexivity.
Qed.

Lemma shiftl_ge1_digits (M E : Z) :
  0 < M -> 1 <= Z.shiftl M E -> 1 <= Zdigits2 M + E.
Proof.
  intros HM Hv.
  pose proof (Zdigits2_bounds M HM) as [_ Hhi].
  assert (Hd : 0 < Zdigits2 M) by (destruct M; simpl; lia).
  set (d := Zdigits2 M) in *.
  destruct (Z_le_gt_dec 1 (d + E)) as [ | Hlt ]; [assumption | exfalso].
  rewrite Z.shiftl_div_pow2 in Hv by lia.
  assert (Hp : 2 ^ d <= 2 ^ (- E)) by (apply Z.pow_le_mono_r; lia).
  rewrite Z.div_small in Hv by lia. lia.
Qed.

Lemma binary_round_aux_ge1 (M E : Z) (l : location) :
  0 < M -> 53 <= Zdigits2 M -> 1 <= Z.shiftl M E ->
  SFleb c1 (binary_round_aux prec emax false M E l) = true.
Proof.
  intros HM Hd Hv.
  pose proof (shiftl_ge1_digits M E HM Hv) as H1.
  destruct (binary_round_aux_normal false M E l HM Hd ltac:(lia))
    as (m2 & e2 & Heq & He2 & Hm2).
  rewrite Heq. destruct (e2 <=? 971); [ | reflexivity].
  unfold SFleb, SFcompare, c1.
  destruct (Z.compare_spec (-52) e2) as [He | He | He];
    [ | reflexivity | exfalso; lia].
  pose proof (mantissa_lower M HM Hd) as Hlow.
  specialize (Hm2 ltac:(lia)).
  rewrite Pos.compare_cont_spec. simpl.
  destruct (Pos.compare_spec 4503599627370496 m2) as [Hc | Hc | Hc];
    try reflexivity.
  apply Pos2Z.pos_lt_pos in Hc. exfalso.
  change (2 ^ 52) with 4503599627370496 in Hlow. lia.
Qed.

Lemma SFdiv_ge1 (x : spec_float) :
  valid_binary x = true -> SFleb c30 x = true ->
  SFleb c1 (SFdiv prec emax x c30) = true.
Proof.
  destruct x as [ [ | ] | [ | ] | | [ | ] m e ]; try discriminate;
    intros Hv Hle; [reflexivity | ].
  assert (Hge : -48 < e \/ (e = -48 /\ 8444249301319680 <= Z.pos m)).
  { unfold SFleb, SFcompare, c30 in Hle.
    destruct (Z.compare_spec (-48) e) as [He | He | He]; try discriminate.
    - right. split; [lia | ].
      rewrite Pos.compare_cont_spec in Hle. simpl in Hle.
      destruct (Pos.compare_spec 8444249301319680 m) as [Hc | Hc | Hc];
        try discriminate.
      + subst m. reflexivity.
      + apply Pos2Z.pos_lt_pos in Hc. lia.
    - left. exact He. }
  pose proof (valid_binary_digits false m e Hv ltac:(lia)) as Hd.
  pose proof (Zdigits2_bounds (Z.pos m) ltac:(lia)) as [Hlo Hhi].
  rewrite Hd in Hlo, Hhi.
  change (2 ^ (53 - 1)) with 4503599627370496 in Hlo.
  change (2 ^ 53) with 9007199254740992 in Hhi.
  unfold c30. rewrite SFdiv_finite_lo by (try assumption; try reflexivity; lia).
  change (2 ^ 53) with 9007199254740992.
  set (Q := Z.pos m * 9007199254740992 / 8444249301319680).
  assert (HQ : 4503599627370496 <= Q)
    by (apply Z.div_le_lower_bound; lia).
  apply binary_round_aux_ge1; [lia | | ].
  - change 53 with (52 + 1). apply Zdigits2_lower; [lia | ].
    change (2 ^ 52) with 4503599627370496. exact HQ.
  - destruct Hge as [He | [He Hm]].
    + destruct (Z_le_gt_dec 0 (e - -48 - 53)) as [He0 | He0].
      * rewrite Z.shiftl_mul_pow2 by assumption.
        assert (0 < 2 ^ (e - -48 - 53)) by (apply Z.pow_pos_nonneg; lia).
        nia.
      * rewrite Z.shiftl_div_pow2 by lia.
        assert (Hp : 2 ^ (- (e - -48 - 53)) <= 2 ^ 52)
          by (apply Z.pow_le_mono_r; lia).
        assert (0 < 2 ^ (- (e - -48 - 53)))
          by (apply Z.pow_pos_nonneg; lia).
        apply Z.div_le_lower_bound; [assumption | ].
        change (2 ^ 52) with 4503599627370496 in Hp. lia.
    + subst e. simpl Z.sub. rewrite Z.shiftl_div_pow2 by lia.
      apply Z.div_le_lower_bound; [reflexivity | ].
      change (2 ^ (- -53) * 1) with 9007199254740992.
      unfold Q. apply Z.div_le_lower_bound; lia.
Qed.

Lemma SFmul_c100_ge100 (x : spec_float) :
  valid_binary x = true -> SFleb c1 x = true ->
  SFleb c100 (SFmul prec emax x c100) = true.
Proof.
  destruct x as [ [ | ] | [ | ] | | [ | ] m e ]; try discriminate;
    intros Hv Hle; [reflexivity | ].
  assert (He : -52 <= e).
  { unfold SFleb, SFcompare, c1 in Hle.
    destruct (Z.compare_spec (-52) e); try discriminate; lia. }
  pose proof (valid_binary_digits false m e Hv ltac:(lia)) as Hd.
  pose proof (Zdigits2_bounds (Z.pos m) ltac:(lia)) as [Hlo _].
  rewrite Hd in Hlo. change (2 ^ (53 - 1)) with 4503599627370496 in Hlo.
  unfold SFmul, c100. simpl xorb.
  apply binary_round_aux_ge100; [lia | | ].
  - change 53 with (52 + 1). apply Zdigits2_lower; [lia | ].
    change (2 ^ 52) with 4503599627370496. lia.
  - destruct (Z_le_gt_dec 0 (e + -46)) as [He0 | He0].
    + rewrite Z.shiftl_mul_pow2 by assumption.
      assert (0 < 2 ^ (e + -46)) by (apply Z.pow_pos_nonneg; lia). nia.
    + rewrite Z.shiftl_div_pow2 by lia.
      assert (Hp : 2 ^ (- (e + -46)) <= 2 ^ 98)
        by (apply Z.pow_le_mono_r; lia).
      assert (0 < 2 ^ (- (e + -46))) by (apply Z.pow_pos_nonneg; lia).
      apply Z.div_le_lower_bound; [assumption | ].
      change (2 ^ 98) with 316912650057057350374175801344 in Hp. lia.
Qed.

Lemma SFadd_ge100_l (x y : spec_float) :
  valid_binary x = true -> SFleb c100 x = true -> sf_nonneg y = true ->
  SFleb c100 (SFadd prec emax x y) = true.
Proof.
  destruct x as [ [ | ] | [ | ] | | [ | ] mx ex ];
    destruct y as [ [ | ] | [ | ] | | [ | ] my ey ];
    try discriminate; intros Hv Hle _; try exact Hle; try reflexivity.
  pose proof (SFleb_c100_value mx ex Hv Hle) as Hx.
  unfold SFadd, cond_Zopp.
  set (ez := Z.min ex ey).
  set (ax := fst (shl_align mx ex ez)).
  set (ay := fst (shl_align my ey ez)).
  change (binary_normalize prec emax (Z.pos ax + Z.pos ay) ez false)
    with (binary_round prec emax false (ax + ay) ez).
  assert (Hs : 100 <= Z.shiftl (Z.pos (ax + ay)) ez).
  { apply Z.le_trans with (Z.shiftl (Z.pos ax) ez).
    - unfold ax. rewrite shl_align_Z by (unfold ez; lia).
      rewrite Z.shiftl_shiftl by (unfold ez; lia).
      replace (ex - ez + ez) with ex by lia. exact Hx.
    - apply shiftl_mono. lia. }
  pose proof (shiftl_ge100_digits (Z.pos (ax + ay)) ez (Pos2Z.is_pos _) Hs) as H7.
  simpl Zdigits2 in H7.
  destruct (shl_align_fexp_spec (ax + ay) ez H7) as (mz & ez' & Heq & Hd & Hval).
  unfold binary_round. rewrite Heq.
  apply binary_round_aux_ge100; [lia | assumption | ].
  rewrite Hval. exact Hs.
Qed.

Lemma score_ge_100_contrast (avg dens : float) :
  (30 <=? avg)%float = true -> nonneg dens ->
  (100 <=? (avg / 30) * 100 + dens * 1000)%float = true.
Proof.
  intros Ha Hd.
  rewrite leb_spec in Ha. change (Prim2SF 30) with c30 in Ha.
  rewrite leb_spec, add_spec.
  change (Prim2SF 100) with c100.
  apply SFadd_ge100_l.
  - apply Prim2SF_valid.
  - rewrite mul_spec. change (Prim2SF 100) with c100.
    apply SFmul_c100_ge100; [apply Prim2SF_valid | ].
    rewrite div_spec. change (Prim2SF 30) with c30.
    apply SFdiv_ge1; [apply Prim2SF_valid | exact Ha].
  - assert (Hb : nonneg (dens * 1000)%float)
      by (apply nonneg_mul; [assumption | reflexivity]).
    exact Hb.
Qed.

(** An image whose average contrast is at least 30 scores exactly 100, so
    that either term alone can fill the score: a score below 100 means an
    average contrast below 30 and an edge density below 0.1. *)
Theorem high_contrast_scores_100 (img : ImageData) :
  valid_image img ->
  ((30 <=? avgContrast img)%float = true ->
   quality (validate img) = 100%float) /\
  ((quality (validate img) <? 100)%float = true ->
   (avgContrast img <? 30)%float = true /\
   (edgeDensity img <? Js.tenth)%float = true).
Proof.
  intros Hv.
  pose proof (avgContrast_nonneg img Hv) as Ha.
  pose proof (edgeDensity_nonneg img Hv) as Hd.
  assert (Hq : quality (validate img)
               = Js.math_min 100
                   (Js.math_max 60
                      ((avgContrast img / 30) * 100
                       + edgeDensity img * 1000)%float)) by reflexivity.
  assert (Htop : (30 <=? avgContrast img)%float = true ->
                 quality (validate img) = 100%float).
  { intros H. rewrite Hq. apply clamp_top.
    apply score_ge_100_contrast; assumption. }
  split; [exact Htop | ].
  intros Hlt. split.
  - destruct (avgContrast img <? 30)%float eqn:E; [reflexivity | exfalso].
    assert (Hge : (30 <=? avgContrast img)%float = true).
    { apply not_ltb_leb; [discriminate | | exact E].
      exact (sf_signed_not_nan _ _ Ha). }
    rewrite (Htop Hge) in Hlt. discriminate.
  - destruct (edgeDensity img <? Js.tenth)%float eqn:E; [reflexivity | exfalso].
    assert (Hge : (Js.tenth <=? edgeDensity img)%float = true).
    { apply not_ltb_leb; [discriminate | | exact E].
      exact (sf_signed_not_nan _ _ Hd). }
    rewrite Hq, (clamp_top _ (score_ge_100 _ _ Ha Hge)) in Hlt.
    discriminate.
Qed.

Lemma high_contrast_scores_100_witness :
  valid_image black_over_white
  /\ quality (validate black_over_white) = 100%float.
Proof.
  split; [exact valid_black_over_white | ].
  apply (high_contrast_scores_100 black_over_white valid_black_over_white).
  reflexivity.
Defined.

(** The score and the issue list are judged apart: an image with an edge
    density of at least 0.1 and an average contrast below 15 gets the full
    score of 100 together with the low-contrast issue and its
    recommendation. *)
Theorem full_score_with_low_contrast (img : ImageData) :
  valid_image img ->
  (Js.tenth <=? edgeDensity img)%float = true ->
  (avgContrast img <? 15)%float = true ->
  quality (validate img) = 100%float
  /\ In issue_contrast (issues (validate img))
  /\ In rec_contrast (recommendations (validate img))
  /\ ~ In rec_features (recommendations (validate img)).
Proof.
  intros Hv Hd Ha.
  assert (Hlow : low_contrast img = true) by exact Ha.
  assert (Hfew : few_edges img = false)
    by (unfold few_edges; now apply leb_not_ltb).
  split; [|split; [|split]].
  - assert (Hq : quality (validate img)
               = Js.math_min 100
                   (Js.math_max 60
                      ((avgContrast img / 30) * 100
                       + edgeDensity img * 1000)%float)) by reflexivity.
    rewrite Hq. apply clamp_top. apply score_ge_100; [ | exact Hd].
    now apply avgContrast_nonneg.
  - rewrite issues_eq, Hlow. decide_in.
  - rewrite recommendations_eq, Hlow. decide_in.
  - rewrite recommendations_eq, Hfew. decide_in.
Qed.

Lemma full_score_with_low_contrast_witness :
  valid_image faint_edge_column
  /\ quality (validate faint_edge_column) = 100%float
  /\ In issue_contrast (issues (validate faint_edge_column)).
Proof.
  assert (Hv : valid_image faint_edge_column).
  { unfold valid_image, faint_edge_column;
      cbn [width height data length repeat concat app].
    repeat split; try lia. repeat constructor; lia. }
  split; [exact Hv | ].
  destruct (full_score_with_low_contrast faint_edge_column Hv)
    as (Hq & Hi & _); try reflexivity.
  split; assumption.
Defined.

(** * The upload form: handlers around the validation *)

Lemma handleMarkerUpload_marker (file : File) (ev : image_event)
    (st : UploadState) :
  markerFile (handleMarkerUpload file ev st) = Some file.
Proof.
  unfold handleMarkerUpload.
  destruct (startsWith (file_type file) "image/"); [|reflexivity].
  destruct (validateMarkerImage ev); reflexivity.
Qed.

Lemma handleMarkerUpload_others (file : File) (ev : image_event)
    (st : UploadState) :
  let st' := handleMarkerUpload file ev st in
  contentFile st' = contentFile st /\ name st' = name st
  /\ description st' = description st /\ uploading st' = uploading st
  /\ dragOver st' = dragOver st.
Proof.
  unfold handleMarkerUpload.
  destruct (startsWith (file_type file) "image/");
    [destruct (validateMarkerImage ev)|]; cbn; repeat split.
Qed.

(** The file input stores a marker of any type, and validates it only when
    its type starts with image/: a file of another type becomes the marker
    while the validation on display stays the one of the file before.  The
    same file dropped on the marker zone is refused. *)
Theorem non_image_marker_keeps_old_validation
    (file : File) (files : list File) (ev : image_event) (st : UploadState) :
  startsWith (file_type file) "image/" = false ->
  markerFile (markerInputChange (file :: files) ev st) = Some file
  /\ markerValidation (markerInputChange (file :: files) ev st)
     = markerValidation st
  /\ handleDrop (file :: files) ZoneMarker ev st = setDragOver None st.
Proof.
  intros H. unfold markerInputChange, handleDrop, handleMarkerUpload.
  rewrite H. repeat split.
Qed.

Lemma non_image_marker_keeps_old_validation_witness :
  let pdf := mkFile "notes.pdf" "application/pdf" in
  let old := validate black_over_white in
  let st := mkUploadState (Some (mkFile "a.png" "image/png")) None "" ""
              false (Some old) None in
  markerFile (markerInputChange [pdf] EvError st) = Some pdf
  /\ markerValidation (markerInputChange [pdf] EvError st) = Some old
  /\ handleDrop [pdf] ZoneMarker EvError st = setDragOver None st.
Proof.
  intros pdf old st.
  exact (non_image_marker_keeps_old_validation pdf [] EvError st eq_refl).
Defined.

(** A marker is validated with the image that was decoded from it, and the
    result replaces the one on display; when the image cannot be decoded
    the file is the marker all the same and the old result stays. *)
Theorem image_marker_validation
    (file : File) (ev : image_event) (st : UploadState) :
  startsWith (file_type file) "image/" = true ->
  markerFile (handleMarkerUpload file ev st) = Some file
  /\ (forall img, ev = EvLoad img ->
        markerValidation (handleMarkerUpload file ev st)
        = Some (validate img))
  /\ (ev = EvError ->
        handleMarkerUpload file ev st = setMarkerFile (Some file) st).
Proof.
  intros H. split; [apply handleMarkerUpload_marker|].
  unfold handleMarkerUpload. rewrite H. split.
  - intros img ->. reflexivity.
  - intros ->. reflexivity.
Qed.

Lemma image_marker_validation_witness :
  let png := mkFile "m.png" "image/png" in
  let st := mkUploadState None None "" "" false None None in
  markerFile (handleMarkerUpload png (EvLoad black_over_white) st) = Some png
  /\ (forall img, EvLoad black_over_white = EvLoad img ->
        markerValidation (handleMarkerUpload png (EvLoad black_over_white) st)
        = Some (validate img))
  /\ (EvLoad black_over_white = EvError ->
        handleMarkerUpload png (EvLoad black_over_white) st
        = setMarkerFile (Some png) st).
Proof.
  intros png st.
  exact (image_marker_validation png (EvLoad black_over_white) st eq_refl).
Defined.

Lemma handleDrop_frame
    (files : list File) (type : DropZone) (ev : image_event)
    (st : UploadState) :
  let st' := handleDrop files type ev st in
  dragOver st' = None
  /\ name st' = name st /\ description st' = description st
  /\ uploading st' = uploading st
  /\ (type = ZoneMarker -> contentFile st' = contentFile st)
  /\ (type = ZoneContent ->
        markerFile st' = markerFile st
        /\ markerValidation st' = markerValidation st)
  /\ (forall file, markerFile st' = Some file ->
        markerFile st = Some file
        \/ (type = ZoneMarker /\ hd_error files = Some file
            /\ startsWith (file_type file) "image/" = true))
  /\ (forall file, contentFile st' = Some file ->
        contentFile st = Some file
        \/ (type = ZoneContent /\ hd_error files = Some file
            /\ (startsWith (file_type file) "video/" = true
                \/ endsWith (file_name file) ".glb" = true
                \/ endsWith (file_name file) ".gltf" = true))).
Proof.
  cbv zeta. unfold handleDrop.
  destruct files as [|file rest].
  { cbn. refine (conj _ (conj _ (conj _ (conj _ (conj _ (conj _ (conj _ _)))))));
      auto. }
  destruct type.
  - destruct (startsWith (file_type file) "image/") eqn:E.
    + pose proof (handleMarkerUpload_marker file ev (setDragOver None st)) as Hm.
      destruct (handleMarkerUpload_others file ev (setDragOver None st))
        as (Hc & Hn & Hd & Hu & Hg).
      cbn in Hc, Hn, Hd, Hu, Hg.
      refine (conj _ (conj _ (conj _ (conj _ (conj _ (conj _ (conj _ _)))))));
        try assumption; try discriminate; try (intros _; assumption).
      * intros f Hf. rewrite Hm in Hf. injection Hf as <-.
        right. split; [reflexivity|]. split; [reflexivity|exact E].
      * intros f Hf. rewrite Hc in Hf. left. exact Hf.
    + cbn.
      refine (conj _ (conj _ (conj _ (conj _ (conj _ (conj _ (conj _ _)))))));
        auto; discriminate.
  - destruct (startsWith (file_type file) "video/"
              || endsWith (file_name file) ".glb"
              || endsWith (file_name file) ".gltf") eqn:E.
    + cbn.
      refine (conj _ (conj _ (conj _ (conj _ (conj _ (conj _ (conj _ _)))))));
        auto; try discriminate.
      intros f Hf. injection Hf as <-. right.
      split; [reflexivity|]. split; [reflexivity|].
      apply orb_true_iff in E. destruct E as [E|E]; [|auto].
      apply orb_true_iff in E. destruct E as [E|E]; auto.
    + cbn.
      refine (conj _ (conj _ (conj _ (conj _ (conj _ (conj _ (conj _ _)))))));
        auto; discriminate.
Qed.

(** A drop looks at the first file only and changes at most the slot of its
    zone.  The marker zone stores a file whose type starts with image/ as
    the marker (and, when it decodes, its validation); the content zone
    stores a file whose type starts with video/ or whose name ends in .glb
    or .gltf as the content; an empty drop and a file the zone refuses only
    clear the highlight.  The highlight is cleared in every case, and the
    text fields and the uploading flag are never touched. *)
Theorem drop_changes_only_its_zone
    (files : list File) (type : DropZone) (ev : image_event)
    (st : UploadState) :
  let st' := handleDrop files type ev st in
  dragOver st' = None
  /\ name st' = name st /\ description st' = description st
  /\ uploading st' = uploading st
  /\ (type = ZoneMarker -> contentFile st' = contentFile st)
  /\ (type = ZoneContent ->
        markerFile st' = markerFile st
        /\ markerValidation st' = markerValidation st)
  /\ (forall file, markerFile st' = Some file ->
        markerFile st = Some file
        \/ (type = ZoneMarker /\ hd_error files = Some file
            /\ startsWith (file_type file) "image/" = true))
  /\ (forall file, contentFile st' = Some file ->
        contentFile st = Some file
        \/ (type = ZoneContent /\ hd_error files = Some file
            /\ (startsWith (file_type file) "video/" = true
                \/ endsWith (file_name file) ".glb" = true
                \/ endsWith (file_name file) ".gltf" = true)))
  /\ (forall file rest,
        files = file :: rest -> type = ZoneMarker ->
        startsWith (file_type file) "image/" = true ->
        markerFile st' = Some file
        /\ (forall img, ev = EvLoad img ->
              markerValidation st' = Some (validate img))
        /\ (ev = EvError -> markerValidation st' = markerValidation st))
  /\ (forall file rest,
        files = file :: rest -> type = ZoneContent ->
        startsWith (file_type file) "video/" = true
        \/ endsWith (file_name file) ".glb" = true
        \/ endsWith (file_name file) ".gltf" = true ->
        contentFile st' = Some file)
  /\ (files = []
      \/ (exists file rest,
            files = file :: rest
            /\ ((type = ZoneMarker
                 /\ startsWith (file_type file) "image/" = false)
                \/ (type = ZoneContent
                    /\ startsWith (file_type file) "video/" = false
                    /\ endsWith (file_name file) ".glb" = false
                    /\ endsWith (file_name file) ".gltf" = false))) ->
      st' = setDragOver None st).
Proof.
  pose proof (handleDrop_frame files type ev st) as Hframe.
  cbv zeta in Hframe |- *.
  destruct Hframe as (F1 & F2 & F3 & F4 & F5 & F6 & F7 & F8).
  refine (conj F1 (conj F2 (conj F3 (conj F4 (conj F5 (conj F6 (conj F7
            (conj F8 (conj _ (conj _ _)))))))))).
  - intros file rest -> -> Himg. unfold handleDrop, handleMarkerUpload.
    rewrite Himg. split; [|split].
    + destruct (validateMarkerImage ev); reflexivity.
    + intros img ->. reflexivity.
    + intros ->. reflexivity.
  - intros file rest -> -> Hacc. unfold handleDrop.
    replace (startsWith (file_type file) "video/"
             || endsWith (file_name file) ".glb"
             || endsWith (file_name file) ".gltf") with true.
    + reflexivity.
    + symmetry. rewrite !orb_true_iff. tauto.
  - intros [-> | (file & rest & -> & [[-> H] | (-> & H1 & H2 & H3)])].
    + reflexivity.
    + unfold handleDrop. rewrite H. reflexivity.
    + unfold handleDrop. rewrite H1, H2, H3. reflexivity.
Qed.

Lemma handleSubmit_blocked {Experience : Type} (trim : string -> string)
    (response : FetchOutcome Experience) (st : UploadState) :
  markerFile st = None \/ contentFile st = None \/ trim (name st) = ""%string ->
  handleSubmit trim response st = (st, [PreventDefault]).
Proof.
  unfold handleSubmit. intros [H|[H|H]].
  - rewrite H. reflexivity.
  - rewrite H. destruct (markerFile st); reflexivity.
  - rewrite H. destruct (markerFile st), (contentFile st); reflexivity.
Qed.

Lemma handleSubmit_posted {Experience : Type} (trim : string -> string)
    (response : FetchOutcome Experience) (st : UploadState)
    (marker content : File) :
  markerFile st = Some marker -> contentFile st = Some content ->
  trim (name st) <> ""%string ->
  handleSubmit trim response st
  = match response with
    | ResponseOk experience =>
        (mkUploadState None None "" "" false None (dragOver st),
         [PreventDefault; PostForm (formOf marker content st);
          UploadComplete experience])
    | _ =>
        (setUploading false st,
         [PreventDefault; PostForm (formOf marker content st); ConsoleError;
          Alert "Upload failed. Please try again."])
    end.
Proof.
  intros Hm Hc Hn. unfold handleSubmit. rewrite Hm, Hc.
  apply String.eqb_neq in Hn. rewrite Hn. destruct response; reflexivity.
Qed.

Lemma complete_dec (trim : string -> string) (st : UploadState) :
  (exists marker content,
     markerFile st = Some marker /\ contentFile st = Some content
     /\ trim (name st) <> ""%string)
  \/ (markerFile st = None \/ contentFile st = None
      \/ trim (name st) = ""%string).
Proof.
  destruct (markerFile st) as [m|]; [|right; left; reflexivity].
  destruct (contentFile st) as [c|]; [|right; right; left; reflexivity].
  destruct (String.eqb (trim (name st)) "") eqn:E.
  - apply String.eqb_eq in E. right. right. right. exact E.
  - apply String.eqb_neq in E. left. exists m, c. auto.
Qed.

(** The request is posted exactly when a marker, a content file and a name
    that is not blank are present, whatever the validation said and
    whether or not an upload is already running; the submit button is
    disabled when the request would not be posted, or an upload runs. *)
Theorem submit_posts_iff_complete {Experience : Type}
    (trim : string -> string) (response : FetchOutcome Experience)
    (st : UploadState) :
  let complete :=
    markerFile st <> None /\ contentFile st <> None
    /\ trim (name st) <> ""%string in
  ((exists formData, In (PostForm formData) (snd (handleSubmit trim response st)))
   <-> complete)
  /\ (~ complete -> handleSubmit trim response st = (st, [PreventDefault]))
  /\ (submitDisabled trim st = false <-> complete /\ uploading st = false)
  /\ (forall v,
        snd (handleSubmit trim response (setMarkerValidation v st))
        = snd (handleSubmit trim response st)
        /\ submitDisabled trim (setMarkerValidation v st)
           = submitDisabled trim st).
Proof.
  cbv zeta.
  assert (Hv : forall v,
             snd (handleSubmit trim response (setMarkerValidation v st))
             = snd (handleSubmit trim response st)
             /\ submitDisabled trim (setMarkerValidation v st)
                = submitDisabled trim st).
  { intros v. unfold handleSubmit, submitDisabled. cbn.
    destruct (markerFile st), (contentFile st); try (split; reflexivity).
    destruct (String.eqb (trim (name st)) ""); [split; reflexivity|].
    destruct response; split; reflexivity. }
  assert (Hblocked : (markerFile st = None \/ contentFile st = None
                      \/ trim (name st) = ""%string) ->
                     ~ (markerFile st <> None /\ contentFile st <> None
                        /\ trim (name st) <> ""%string))
    by (intros [H|[H|H]] (H1 & H2 & H3); contradiction).
  split; [|split; [|split; [|exact Hv]]];
    destruct (complete_dec trim st) as [(m & c & Hm & Hc & Hn)|Hb].
  - rewrite (handleSubmit_posted trim response st m c Hm Hc Hn).
    split; [intros _; rewrite Hm, Hc; repeat split; try discriminate;
            exact Hn|].
    intros _. exists (formOf m c st).
    destruct response; right; left; reflexivity.
  - rewrite (handleSubmit_blocked trim response st Hb).
    split; [|intros H; destruct (Hblocked Hb H)].
    intros [fd H]. in_effects.
  - intros H. exfalso. apply H. rewrite Hm, Hc.
    repeat split; try discriminate; exact Hn.
  - intros _. apply handleSubmit_blocked. exact Hb.
  - assert (Hd : submitDisabled trim st = uploading st).
    { unfold submitDisabled. rewrite Hm, Hc.
      apply String.eqb_neq in Hn. rewrite Hn. reflexivity. }
    rewrite Hd. split; [|intros [_ H]; exact H].
    intros H. split; [|exact H]. rewrite Hm, Hc.
    repeat split; try discriminate; exact Hn.
  - split; [|intros [H _]; destruct (Hblocked Hb H)].
    unfold submitDisabled. destruct Hb as [H|[H|H]].
    + rewrite H. discriminate.
    + rewrite H. destruct (markerFile st); discriminate.
    + rewrite H. destruct (markerFile st), (contentFile st); discriminate.
Qed.

(** The posted form has the five fields in the order the handler appends
    them: the two files, the name as typed (not the trimmed one), the
    description, and a content type that is video exactly when the MIME
    type of the content file starts with video/ and model for every other
    file. *)
Theorem posted_form_fields {Experience : Type}
    (trim : string -> string) (response : FetchOutcome Experience)
    (st : UploadState) (formData : list (string * FormValue)) :
  In (PostForm formData) (snd (handleSubmit trim response st)) ->
  exists marker content,
    markerFile st = Some marker /\ contentFile st = Some content
    /\ formData
       = [("markerImage"%string, FormFile marker);
          ("contentFile"%string, FormFile content);
          ("name"%string, FormText (name st));
          ("description"%string, FormText (description st));
          ("contentType"%string,
           FormText (if startsWith (file_type content) "video/"
                     then "video" else "model"))].
Proof.
  destruct (complete_dec trim st) as [(m & c & Hm & Hc & Hn)|Hb].
  - rewrite (handleSubmit_posted trim response st m c Hm Hc Hn).
    intros H. exists m, c. split; [exact Hm|]. split; [exact Hc|].
    destruct response; in_effects;
      injection H as <-; reflexivity.
  - rewrite (handleSubmit_blocked trim response st Hb).
    intros H. in_effects.
Qed.

Lemma posted_form_fields_witness :
  let glb := mkFile "chair.glb" "" in
  let png := mkFile "m.png" "image/png" in
  let st := mkUploadState (Some png) (Some glb) " Chair " "" false None None in
  exists marker content,
    markerFile st = Some marker /\ contentFile st = Some content
    /\ [("markerImage"%string, FormFile png);
        ("contentFile"%string, FormFile glb);
        ("name"%string, FormText " Chair ");
        ("description"%string, FormText "");
        ("contentType"%string, FormText "model")]
       = [("markerImage"%string, FormFile marker);
          ("contentFile"%string, FormFile content);
          ("name"%string, FormText (name st));
          ("description"%string, FormText (description st));
          ("contentType"%string,
           FormText (if startsWith (file_type content) "video/"
                     then "video" else "model"))].
Proof.
  intros glb png st.
  apply (@posted_form_fields unit (fun s => s) FetchThrows st).
  cbn. right. left. reflexivity.
Defined.

(** How a submission ends.  The callback runs exactly when the response was
    ok, once, with the parsed body, and then the form is emptied; in every
    other case (blocked, response not ok, exception) the files, the texts
    and the validation stay as they were and, when the request was posted,
    the user is alerted.  A posted submission always ends with the
    uploading flag off. *)
Theorem submit_outcome {Experience : Type}
    (trim : string -> string) (response : FetchOutcome Experience)
    (st : UploadState) :
  let st' := fst (handleSubmit trim response st) in
  let effects := snd (handleSubmit trim response st) in
  let posted := exists formData, In (PostForm formData) effects in
  (forall experience,
     In (UploadComplete experience) effects
     <-> posted /\ response = ResponseOk experience)
  /\ ((exists experience, In (UploadComplete experience) effects) ->
        markerFile st' = None /\ contentFile st' = None
        /\ name st' = ""%string /\ description st' = ""%string
        /\ markerValidation st' = None
        /\ ~ In (Alert "Upload failed. Please try again.") effects)
  /\ (~ (exists experience, In (UploadComplete experience) effects) ->
        markerFile st' = markerFile st /\ contentFile st' = contentFile st
        /\ name st' = name st /\ description st' = description st
        /\ markerValidation st' = markerValidation st
        /\ (posted <-> In (Alert "Upload failed. Please try again.") effects))
  /\ (posted -> uploading st' = false)
  /\ dragOver st' = dragOver st.
Proof.
  cbv zeta.
  destruct (complete_dec trim st) as [(m & c & Hm & Hc & Hn)|Hb].
  - rewrite (handleSubmit_posted trim response st m c Hm Hc Hn).
    destruct response as [e|s|]; cbn [fst snd].
    + split; [|split; [|split; [|split]]].
      * intros e'. split.
        -- intros H. in_effects. injection H as <-.
           split; [|reflexivity]. eexists. right. left. reflexivity.
        -- intros [_ H]. injection H as <-. right. right. left. reflexivity.
      * intros _. repeat split. intros H. in_effects.
      * intros H. exfalso. apply H. exists e. right. right. left.
        reflexivity.
      * reflexivity.
      * reflexivity.
    + split; [|split; [|split; [|split]]].
      * intros e'. split; [intros H; in_effects|intros [_ H]; discriminate].
      * intros [e' H]. in_effects.
      * intros _. cbn. repeat split.
        -- intros _. right. right. right. left. reflexivity.
        -- intros _. eexists. right. left. reflexivity.
      * reflexivity.
      * reflexivity.
    + split; [|split; [|split; [|split]]].
      * intros e'. split; [intros H; in_effects|intros [_ H]; discriminate].
      * intros [e' H]. in_effects.
      * intros _. cbn. repeat split.
        -- intros _. right. right. right. left. reflexivity.
        -- intros _. eexists. right. left. reflexivity.
      * reflexivity.
      * reflexivity.
  - rewrite (handleSubmit_blocked trim response st Hb). cbn [fst snd].
    split; [|split; [|split; [|split]]].
    + intros e'. split; [intros H; in_effects|].
      intros [[fd H] _]. in_effects.
    + intros [e' H]. in_effects.
    + intros _. repeat split.
      * intros [fd H]. in_effects.
      * intros H. in_effects.
    + intros [fd H]. in_effects.
    + reflexivity.
Qed.

(** * The upload endpoint *)

Lemma split_dot_plain (s : string) :
  Server.has_dot s = false -> Server.split_dot s = [s].
Proof.
  induction s as [|c s IH]; [reflexivity|].
  cbn [Server.has_dot Server.split_dot]. intros H.
  apply orb_false_iff in H. destruct H as [Hc Hs].
  rewrite Hc, (IH Hs). reflexivity.
Qed.

Lemma split_dot_dotted (s : string) :
  Server.has_dot s = true ->
  exists p q qs, Server.split_dot s = p :: q :: qs.
Proof.
  induction s as [|c s IH]; [discriminate|].
  cbn [Server.has_dot Server.split_dot]. intros H.
  destruct (Ascii.eqb c _).
  - destruct (Server.has_dot s) eqn:Hs.
    + destruct (IH eq_refl) as (p & q & qs & E). rewrite E. eauto.
    + rewrite (split_dot_plain s Hs). eauto.
  - cbn [orb] in H. destruct (IH H) as (p & q & qs & E). rewrite E. eauto.
Qed.

Lemma extension_cons (c : Ascii.ascii) (rest : string) :
  Server.extension (String c rest)
  = if Server.has_dot (String c "") || Server.has_dot rest
    then Server.extension rest
    else String c rest.
Proof.
  unfold Server.extension. cbn [Server.has_dot Server.split_dot].
  rewrite orb_false_r.
  destruct (Ascii.eqb c _); cbn [orb].
  - destruct (Server.has_dot rest) eqn:Hs.
    + destruct (split_dot_dotted rest Hs) as (p & q & qs & E).
      rewrite E. reflexivity.
    + rewrite (split_dot_plain rest Hs). reflexivity.
  - destruct (Server.has_dot rest) eqn:Hs.
    + destruct (split_dot_dotted rest Hs) as (p & q & qs & E).
      rewrite E. reflexivity.
    + rewrite (split_dot_plain rest Hs). reflexivity.
Qed.

Lemma extension_plain (s : string) :
  Server.has_dot s = false -> Server.extension s = s.
Proof.
  intros H. unfold Server.extension. rewrite (split_dot_plain s H).
  reflexivity.
Qed.

Lemma extension_no_dot (s : string) :
  Server.has_dot (Server.extension s) = false.
Proof.
  induction s as [|c s IH]; [reflexivity|].
  rewrite extension_cons.
  destruct (Server.has_dot (String c "") || Server.has_dot s) eqn:E;
    [exact IH|].
  apply orb_false_iff in E. destruct E as [Hc Hs].
  cbn [Server.has_dot] in *. rewrite orb_false_r in Hc. rewrite Hc, Hs.
  reflexivity.
Qed.

Lemma has_dot_app (s t : string) :
  Server.has_dot (s ++ t) = Server.has_dot s || Server.has_dot t.
Proof.
  induction s as [|c s IH]; [reflexivity|].
  cbn [append Server.has_dot]. rewrite IH. apply orb_assoc.
Qed.

Lemma extension_after_dot (stem e : string) :
  Server.has_dot e = false ->
  Server.extension (stem ++ "." ++ e) = e.
Proof.
  intros He. induction stem as [|c stem IH].
  - cbn [append]. rewrite extension_cons. cbn [Server.has_dot orb].
    apply extension_plain, He.
  - cbn [append]. rewrite extension_cons.
    change (String c stem ++ "." ++ e)%string
      with (String c (stem ++ "." ++ e)) in *.
    rewrite has_dot_app. cbn [append Server.has_dot].
    replace (Ascii.eqb _ _ || Server.has_dot e) with true by reflexivity.
    rewrite !orb_true_r. exact IH.
Qed.

Lemma extension_dotted (s : string) :
  Server.has_dot s = true ->
  exists stem, s = (stem ++ "." ++ Server.extension s)%string.
Proof.
  induction s as [|c s IH]; [discriminate|].
  intros H. rewrite extension_cons.
  cbn [Server.has_dot] in H |- *. rewrite orb_false_r.
  destruct (Server.has_dot s) eqn:Hs.
  - rewrite orb_true_r. destruct (IH eq_refl) as [stem E].
    exists (String c stem). cbn [append]. f_equal. exact E.
  - rewrite orb_false_r in H |- *. rewrite H.
    exists ""%string. cbn [append]. rewrite (extension_plain s Hs).
    f_equal. apply Ascii.eqb_eq in H. exact H.
Qed.

(** The extension the endpoint puts in an object name is the text after the
    last dot of the file name: it holds no dot, the name is a stem, a dot
    and the extension, and no other split of the name at a dot has a
    dot-free right part.  A name without a dot is its own extension: the
    marker photo is stored as <id>_marker.photo. *)
Theorem extension_is_text_after_last_dot (s : string) :
  Server.has_dot (Server.extension s) = false
  /\ (Server.has_dot s = true ->
        exists stem, s = (stem ++ "." ++ Server.extension s)%string)
  /\ (forall stem e,
        s = (stem ++ "." ++ e)%string -> Server.has_dot e = false ->
        Server.extension s = e)
  /\ (Server.has_dot s = false -> Server.extension s = s).
Proof.
  split; [apply extension_no_dot|].
  split; [apply extension_dotted|].
  split; [|apply extension_plain].
  intros stem e -> He. apply extension_after_dot, He.
Qed.

Lemma try_block_eq {Experience : Type}
    (env : Server.Env Experience) (req : Server.Request) :
  Server.try_block env req
  = match Server.formData req with
    | inr message => ([], inr message)
    | inl fields =>
      if negb (Server.truthy (Server.get fields "markerImage"))
         || negb (Server.truthy (Server.get fields "contentFile"))
         || negb (Server.truthy (Server.get fields "name"))
      then ([], inr "Missing required fields"%string)
      else
        match Server.get fields "markerImage" with
        | Some (FormFile marker) =>
          let id := Server.randomUUID env in
          let U1 := Server.StorageUpload "ar-markers"
                      (Server.markerPath id marker) marker in
          match Server.storage_upload env "ar-markers"
                  (Server.markerPath id marker) marker with
          | Some e1 =>
              ([U1], inr ("Failed to upload marker image: " ++ e1)%string)
          | None =>
            match Server.get fields "contentFile" with
            | Some (FormFile content) =>
              let row := rowOf env fields marker content in
              let U2 := Server.StorageUpload "ar-content"
                          (Server.contentPath id content) content in
              let T := Server.TriggerProcessing id
                         (Server.marker_image_url row) in
              match Server.storage_upload env "ar-content"
                      (Server.contentPath id content) content with
              | Some e2 =>
                  ([U1; U2],
                   inr ("Failed to upload content file: " ++ e2)%string)
              | None =>
                match Server.insert env row with
                | inr e3 =>
                    ([U1; U2; Server.Insert row],
                     inr ("Failed to create experience: " ++ e3)%string)
                | inl experience =>
                  match Server.process_marker env id
                          (Server.marker_image_url row) with
                  | Server.TriggerOk =>
                      ([U1; U2; Server.Insert row; T], inl (id, experience))
                  | Server.TriggerNotOk =>
                      ([U1; U2; Server.Insert row; T;
                        Server.ConsoleError
                          "Failed to trigger marker processing"],
                       inl (id, experience))
                  | Server.TriggerThrows message =>
                      ([U1; U2; Server.Insert row; T], inr message)
                  end
                end
              end
            | _ => ([U1], inr (Server.type_error env))
            end
          end
        | _ => ([], inr (Server.type_error env))
        end
    end.
Proof.
  unfold Server.try_block.
  destruct (Server.formData req) as [fields|message]; [|reflexivity].
  unfold Server.bind at 1. unfold Server.ret at 1. cbv beta iota zeta.
  destruct (negb (Server.truthy (Server.get fields "markerImage"))
            || negb (Server.truthy (Server.get fields "contentFile"))
            || negb (Server.truthy (Server.get fields "name")));
    [reflexivity|].
  unfold Server.file_of, Server.upload, Server.emit, Server.ret,
    Server.throw, Server.bind, rowOf.
  cbv beta iota zeta. cbn [app Server.marker_image_url].
  destruct (Server.get fields "markerImage") as [[marker|s]|];
    cbv beta iota zeta; cbn [app]; try reflexivity.
  destruct (Server.storage_upload env "ar-markers" _ marker);
    [reflexivity|].
  destruct (Server.get fields "contentFile") as [[content|s]|];
    cbv beta iota zeta; cbn [app]; try reflexivity.
  destruct (Server.storage_upload env "ar-content" _ content);
    [reflexivity|].
  cbn [app].
  destruct (Server.insert env _); [|reflexivity].
  destruct (Server.process_marker env _ _); reflexivity.
Qed.

Lemma try_block_complete {Experience : Type}
    (env : Server.Env Experience) (req : Server.Request)
    (fields : list (string * FormValue)) (marker content : File) :
  Server.formData req = inl fields ->
  Server.get fields "markerImage" = Some (FormFile marker) ->
  Server.get fields "contentFile" = Some (FormFile content) ->
  Server.truthy (Server.get fields "name") = true ->
  let id := Server.randomUUID env in
  let row := rowOf env fields marker content in
  let U1 := Server.StorageUpload "ar-markers"
              (Server.markerPath id marker) marker in
  let U2 := Server.StorageUpload "ar-content"
              (Server.contentPath id content) content in
  let T := Server.TriggerProcessing id (Server.marker_image_url row) in
  Server.try_block env req
  = match Server.storage_upload env "ar-markers"
            (Server.markerPath id marker) marker with
    | Some e1 => ([U1], inr ("Failed to upload marker image: " ++ e1)%string)
    | None =>
      match Server.storage_upload env "ar-content"
              (Server.contentPath id content) content with
      | Some e2 =>
          ([U1; U2], inr ("Failed to upload content file: " ++ e2)%string)
      | None =>
        match Server.insert env row with
        | inr e3 =>
            ([U1; U2; Server.Insert row],
             inr ("Failed to create experience: " ++ e3)%string)
        | inl experience =>
          match Server.process_marker env id (Server.marker_image_url row) with
          | Server.TriggerOk =>
              ([U1; U2; Server.Insert row; T], inl (id, experience))
          | Server.TriggerNotOk =>
              ([U1; U2; Server.Insert row; T;
                Server.ConsoleError "Failed to trigger marker processing"],
               inl (id, experience))
          | Server.TriggerThrows message =>
              ([U1; U2; Server.Insert row; T], inr message)
          end
        end
      end
    end.
Proof.
  intros Hf Hmarker Hcontent Hname. cbv zeta.
  unfold Server.try_block. rewrite Hf.
  unfold Server.bind at 1. unfold Server.ret at 1. cbv beta iota zeta.
  rewrite Hmarker, Hcontent, Hname. cbn [Server.truthy negb orb].
  unfold Server.file_of, Server.upload, Server.emit, Server.ret,
    Server.throw, Server.bind, rowOf.
  cbv beta iota zeta. cbn [app Server.marker_image_url].
  destruct (Server.storage_upload env "ar-markers" _ marker);
    [reflexivity|].
  destruct (Server.storage_upload env "ar-content" _ content);
    [reflexivity|].
  cbn [app].
  destruct (Server.insert env _); [|reflexivity].
  destruct (Server.process_marker env _ _); reflexivity.
Qed.

Lemma serve_complete {Experience : Type}
    (env : Server.Env Experience) (req : Server.Request)
    (fields : list (string * FormValue)) (marker content : File) :
  Server.method req <> "OPTIONS"%string ->
  Server.formData req = inl fields ->
  Server.get fields "markerImage" = Some (FormFile marker) ->
  Server.get fields "contentFile" = Some (FormFile content) ->
  Server.truthy (Server.get fields "name") = true ->
  let id := Server.randomUUID env in
  let up1 := Server.storage_upload env "ar-markers"
               (Server.markerPath id marker) marker in
  let up2 := Server.storage_upload env "ar-content"
               (Server.contentPath id content) content in
  let ins := Server.insert env (rowOf env fields marker content) in
  let trig := Server.process_marker env id
                (Server.marker_image_url (rowOf env fields marker content)) in
  exists n,
    Server.calls (fst (Server.serve env req))
    = firstn n (plan env fields marker content)
    /\ (1 <= n <= 4)%nat
    /\ ((2 <= n)%nat <-> up1 = None)
    /\ ((3 <= n)%nat <-> up1 = None /\ up2 = None)
    /\ (n = 4%nat <->
        up1 = None /\ up2 = None /\ exists experience, ins = inl experience)
    /\ (Server.response_status (snd (Server.serve env req)) = 200 <->
        n = 4%nat /\ forall message, trig <> Server.TriggerThrows message)
    /\ (Server.response_status (snd (Server.serve env req)) <> 200 ->
        Server.response_status (snd (Server.serve env req)) = 500).
Proof.
  intros Hm Hf Hmarker Hcontent Hname. cbv zeta.
  apply String.eqb_neq in Hm.
  unfold Server.serve. rewrite Hm.
  rewrite (try_block_complete env req fields marker content
             Hf Hmarker Hcontent Hname).
  cbv zeta. unfold plan.
  destruct (Server.storage_upload env "ar-markers" _ marker) as [e1|].
  { exists 1%nat. cbn.
    refine (conj _ (conj _ (conj _ (conj _ (conj _ (conj _ _))))));
      server_cases. }
  destruct (Server.storage_upload env "ar-content" _ content) as [e2|].
  { exists 2%nat. cbn.
    refine (conj _ (conj _ (conj _ (conj _ (conj _ (conj _ _))))));
      server_cases. }
  destruct (Server.insert env _) as [experience|e3].
  2:{ exists 3%nat. cbn.
    refine (conj _ (conj _ (conj _ (conj _ (conj _ (conj _ _))))));
      server_cases. }
  exists 4%nat.
  destruct (Server.process_marker env _ _) as [| |e4]; cbn;
    (refine (conj _ (conj _ (conj _ (conj _ (conj _ (conj _ _))))));
     server_cases).
  split; [discriminate|]. intros [_ H]. exfalso. apply (H e4). reflexivity.
Qed.



Lemma serve_unchecked_request {Experience : Type}
    (env : Server.Env Experience) (req : Server.Request) :
  (Server.method req = "OPTIONS"%string ->
     Server.serve env req = ([], Server.mkResponse 200 Server.BodyNull))
  /\ (Server.calls (fst (Server.serve env req)) <> [] ->
        Server.method req <> "OPTIONS"%string
        /\ exists fields marker,
             Server.formData req = inl fields
             /\ Server.get fields "markerImage" = Some (FormFile marker)
             /\ Server.truthy (Server.get fields "contentFile") = true
             /\ Server.truthy (Server.get fields "name") = true)
  /\ (forall fields,
        Server.method req <> "OPTIONS"%string ->
        Server.formData req = inl fields ->
        Server.truthy (Server.get fields "markerImage") = false
        \/ Server.truthy (Server.get fields "contentFile") = false
        \/ Server.truthy (Server.get fields "name") = false ->
        Server.serve env req
        = ([Server.ConsoleError "Error uploading experience:"],
           Server.mkResponse 500
             (Server.BodyFailure "Missing required fields"))).
Proof.
  split; [|split].
  - intros H. unfold Server.serve. rewrite H. reflexivity.
  - destruct (String.eqb (Server.method req) "OPTIONS") eqn:Em.
    { unfold Server.serve. rewrite Em. intros H. exfalso. apply H.
      reflexivity. }
    intros H. split; [apply String.eqb_neq, Em|].
    destruct (Server.formData req) as [fields|msg] eqn:Ef.
    2:{ exfalso. apply H. unfold Server.serve, Server.try_block.
        rewrite Em, Ef. reflexivity. }
    exists fields.
    destruct (Server.truthy (Server.get fields "markerImage")) eqn:Tm.
    2:{ exfalso. apply H. unfold Server.serve, Server.try_block.
        rewrite Em, Ef. cbn. rewrite Tm. reflexivity. }
    destruct (Server.truthy (Server.get fields "contentFile")) eqn:Tc.
    2:{ exfalso. apply H. unfold Server.serve, Server.try_block.
        rewrite Em, Ef. cbn. rewrite Tm, Tc. reflexivity. }
    destruct (Server.truthy (Server.get fields "name")) eqn:Tn.
    2:{ exfalso. apply H. unfold Server.serve, Server.try_block.
        rewrite Em, Ef. cbn. rewrite Tm, Tc, Tn. reflexivity. }
    destruct (Server.get fields "markerImage") as [[marker|s]|] eqn:Gm.
    + exists marker. auto.
    + exfalso. apply H. unfold Server.serve, Server.try_block.
      rewrite Em, Ef. cbn. rewrite Gm, Tc, Tn. cbn in Tm |- *.
      rewrite Tm. reflexivity.
    + discriminate.
  - intros fields Hm Hf Hmissing. apply String.eqb_neq in Hm.
    unfold Server.serve, Server.try_block. rewrite Hm, Hf. cbn.
    replace (negb (Server.truthy (Server.get fields "markerImage"))
             || negb (Server.truthy (Server.get fields "contentFile"))
             || negb (Server.truthy (Server.get fields "name"))) with true.
    + reflexivity.
    + destruct Hmissing as [H|[H|H]]; rewrite H; cbn;
        rewrite ?orb_true_r; reflexivity.
Qed.

Lemma serve_first_call {Experience : Type}
    (env : Server.Env Experience) (req : Server.Request)
    (fields : list (string * FormValue)) (marker : File) :
  Server.method req <> "OPTIONS"%string ->
  Server.formData req = inl fields ->
  Server.get fields "markerImage" = Some (FormFile marker) ->
  Server.truthy (Server.get fields "contentFile") = true ->
  Server.truthy (Server.get fields "name") = true ->
  hd_error (fst (Server.serve env req))
  = Some (Server.StorageUpload "ar-markers"
            (Server.markerPath (Server.randomUUID env) marker) marker).
Proof.
  intros Hm Hf Hmarker Tc Tn. apply String.eqb_neq in Hm.
  unfold Server.serve. rewrite Hm, try_block_eq, Hf, Hmarker, Tc, Tn.
  cbn [Server.truthy negb orb]. cbv zeta.
  server_run; reflexivity.
Qed.

Lemma serve_all_succeed {Experience : Type}
    (env : Server.Env Experience) (req : Server.Request)
    (fields : list (string * FormValue)) (marker content : File) :
  Server.method req <> "OPTIONS"%string ->
  Server.formData req = inl fields ->
  Server.get fields "markerImage" = Some (FormFile marker) ->
  Server.get fields "contentFile" = Some (FormFile content) ->
  Server.truthy (Server.get fields "name") = true ->
  Server.storage_upload env "ar-markers"
    (Server.markerPath (Server.randomUUID env) marker) marker = None ->
  Server.storage_upload env "ar-content"
    (Server.contentPath (Server.randomUUID env) content) content = None ->
  (exists experience,
     Server.insert env (rowOf env fields marker content) = inl experience) ->
  (forall message,
     Server.process_marker env (Server.randomUUID env)
       (Server.marker_image_url (rowOf env fields marker content))
     <> Server.TriggerThrows message) ->
  Server.response_status (snd (Server.serve env req)) = 200
  /\ Server.calls (fst (Server.serve env req))
     = plan env fields marker content.
Proof.
  intros Hm Hf Hmarker Hcontent Tn U1 U2 Hins Htrig.
  destruct (serve_complete env req fields marker content
              Hm Hf Hmarker Hcontent Tn)
    as (n & Hcalls & _ & _ & _ & H4 & H200 & _).
  assert (Hn : n = 4%nat) by (apply H4; auto).
  split; [apply H200; auto|].
  rewrite Hcalls, Hn. reflexivity.
Qed.



(** A trigger that answers with a status that is not ok costs the request
    nothing: the calls and the answer are those of a trigger that answers
    ok.  A trigger that throws turns the answer into a 500 with the message
    thrown, although the row has been inserted by then. *)
Theorem trigger_failure_is_tolerated {Experience : Type}
    (env : Server.Env Experience) (req : Server.Request) :
  (snd (Server.serve (with_trigger env Server.TriggerNotOk) req)
   = snd (Server.serve (with_trigger env Server.TriggerOk) req)
   /\ Server.calls (fst (Server.serve (with_trigger env Server.TriggerNotOk) req))
      = Server.calls (fst (Server.serve (with_trigger env Server.TriggerOk) req)))
  /\ (forall message experienceId url,
        let run := Server.serve (with_trigger env (Server.TriggerThrows message))
                     req in
        In (Server.TriggerProcessing experienceId url) (fst run) ->
        snd run = Server.mkResponse 500 (Server.BodyFailure message)
        /\ exists row, In (Server.Insert row) (fst run)
                       /\ Server.id row = experienceId
                       /\ Server.status row = "processing"%string).
Proof.
  split; [|intros message experienceId url; cbv zeta];
    unfold Server.serve; rewrite !try_block_eq;
    unfold with_trigger, rowOf;
    cbn [Server.randomUUID Server.storage_upload Server.getPublicUrl
         Server.insert Server.process_marker Server.type_error
         Server.marker_image_url];
    cbv zeta.
  - split; server_run; reflexivity.
  - server_run; intros H; in_effects.
    injection H as <- _. split; [reflexivity|].
    eexists. split; [right; right; left; reflexivity|].
    split; reflexivity.
Qed.


Lemma posted_form {Experience : Type} (trim : string -> string)
    (response : FetchOutcome Experience) (st : UploadState)
    (formData : list (string * FormValue)) :
  In (PostForm formData) (snd (handleSubmit trim response st)) ->
  exists marker content,
    markerFile st = Some marker /\ contentFile st = Some content
    /\ trim (name st) <> ""%string
    /\ formData = formOf marker content st.
Proof.
  destruct (complete_dec trim st) as [(m & c & Hm & Hc & Hn)|Hb].
  - rewrite (handleSubmit_posted trim response st m c Hm Hc Hn).
    intros H. exists m, c. repeat split; try assumption.
    destruct response; in_effects; injection H as <-; reflexivity.
  - rewrite (handleSubmit_blocked trim response st Hb).
    intros H. in_effects.
Qed.

Lemma arrives_as_formOf (marker content : File) (st : UploadState)
    (fields : list (string * FormValue)) :
  arrives_as (formOf marker content st) fields = true ->
  exists marker' content' d,
    fields
    = [("markerImage"%string, FormFile marker');
       ("contentFile"%string, FormFile content');
       ("name"%string, FormText (name st));
       ("description"%string, FormText d);
       ("contentType"%string, FormText (contentTypeOf content))].
Proof.
  unfold formOf.
  destruct fields as [|[k1 v1] [|[k2 v2] [|[k3 v3] [|[k4 v4] [|[k5 v5] [|]]]]]];
    cbn [arrives_as]; try discriminate;
    try (rewrite ?andb_false_r; discriminate).
  rewrite andb_true_r, !andb_true_iff.
  intros ((E1 & V1) & (E2 & V2) & (E3 & V3) & (E4 & V4) & E5 & V5).
  apply String.eqb_eq in E1, E2, E3, E4, E5. subst k1 k2 k3 k4 k5.
  destruct v1 as [m'|]; [|discriminate].
  destruct v2 as [c'|]; [|discriminate].
  destruct v3 as [|n]; [discriminate|].
  destruct v4 as [|d]; [discriminate|].
  destruct v5 as [|t]; [discriminate|].
  cbn in V3, V5.
  apply String.eqb_eq in V3, V5. subst n t.
  exists m', c', d. reflexivity.
Qed.



(** * The page *)

Lemma run_snoc {Experience : Type} (events : list (App.Event Experience))
    (ev : App.Event Experience) :
  App.run (events ++ [ev]) = App.dispatch (App.run events) ev.
Proof.
  unfold App.run. rewrite fold_left_app. reflexivity.
Qed.

(** Whatever the handlers of the page are called with and in whatever
    order, the viewer is never rendered empty: what is rendered follows from
    the last handler called alone, the upload form after a click on create,
    the viewer of the experience clicked after a click on an experience,
    and the gallery after a completed upload or a click on back; an
    experience stays selected through the first two. *)
Theorem viewer_is_never_empty {Experience : Type}
    (events : list (App.Event Experience)) :
  App.render (App.run events) <> App.NullView
  /\ (forall ev,
        App.render (App.run (events ++ [ev]))
        = match ev with
          | App.CreateNew => App.UploadView
          | App.ViewExperience experience => App.ViewerView experience
          | App.UploadComplete | App.BackToGallery => App.GalleryView
          end)
  /\ (App.viewMode (App.run events) = App.viewer ->
        App.selectedExperience (App.run events) <> None)
  /\ (forall ev,
        ev = App.CreateNew \/ ev = App.UploadComplete ->
        App.selectedExperience (App.run (events ++ [ev]))
        = App.selectedExperience (App.run events)).
Proof.
  assert (Hinv : App.viewMode (App.run events) = App.viewer ->
                 App.selectedExperience (App.run events) <> None).
  { induction events as [|ev events IH] using rev_ind; [discriminate|].
    rewrite run_snoc. destruct ev; cbn; discriminate. }
  split; [|split; [|split]].
  - unfold App.render.
    destruct (App.viewMode (App.run events)) eqn:Em; try discriminate.
    destruct (App.selectedExperience (App.run events)) eqn:Es;
      [discriminate|]. exfalso. exact (Hinv eq_refl eq_refl).
  - intros ev. rewrite run_snoc. destruct ev; reflexivity.
  - exact Hinv.
  - intros ev [-> | ->]; rewrite run_snoc; reflexivity.
Qed.
